(** * Document vectorization pipeline: chunking, length enforcement, ingestion

    A shallow embedding of [index_documents.py].  Python strings are
    sequences of Unicode code points, Python integers are unbounded; the
    external collaborators (file system, PDF/DOCX readers, embedding service,
    PostgreSQL connection) are scripted by a [world] record and every call to
    them is recorded in a trace. *)

From Stdlib Require Import ZArith NArith List Bool Lia String Ascii Floats.
Import ListNotations.
Local Open Scope Z_scope.

(** ** Python built-ins used by the module *)

Module Py.

(** A [str] is a sequence of code points. *)
Definition char := N.
Definition str := list char.

(** String literals of the source (all of them ASCII). *)
Definition lit (s : string) : str :=
  List.map N_of_ascii (list_ascii_of_string s).

(** [len(s)], for strings and for lists. *)
Definition len {A} (s : list A) : Z := Z.of_nat (List.length s).

Definition str_eqb (a b : str) : bool :=
  if list_eq_dec N.eq_dec a b then true else false.

(** [str.isspace] on one code point; the same table drives [str.strip()]
    and the [\s] class of [re] on [str] patterns. *)
Definition is_space (c : char) : bool :=
  (((9 <=? c) && (c <=? 13)) || ((28 <=? c) && (c <=? 32))
   || (c =? 133) || (c =? 160) || (c =? 5760)
   || ((8192 <=? c) && (c <=? 8202))
   || (c =? 8232) || (c =? 8233) || (c =? 8239) || (c =? 8287)
   || (c =? 12288))%N.

Fixpoint lstrip (s : str) : str :=
  match s with
  | [] => []
  | c :: s' => if is_space c then lstrip s' else s
  end.

(** [s.rstrip()]: the mirror image of [lstrip]. *)
Definition rstrip (s : str) : str :=
  rev_append (lstrip (rev_append s [])) [].

(** [s.strip()] *)
Definition strip (s : str) : str := rstrip (lstrip s).

(** Truth value of a string: non-empty. *)
Definition truthy (s : str) : bool :=
  match s with [] => false | _ :: _ => true end.

(** Slice bound of [s[i:j]]: negative bounds count from the end, and
    everything is clamped to [0, len]. *)
Definition clamp (n i : Z) : Z :=
  if i <? 0 then Z.max 0 (i + n) else Z.min i n.

(** [s[i:j]] *)
Definition slice (s : str) (i j : Z) : str :=
  let lo := clamp (len s) i in
  let hi := clamp (len s) j in
  firstn (Z.to_nat (hi - lo)) (skipn (Z.to_nat lo) s).

(** [range(start, stop, step)] for [step > 0]: [ceil((stop-start)/step)]
    elements [start + k*step]. *)
Definition range_len (start stop step : Z) : nat :=
  if start <? stop then Z.to_nat ((stop - start + step - 1) / step) else O.

Definition range_pos (start stop step : Z) : list Z :=
  List.map (fun k => start + Z.of_nat k * step)
           (seq 0 (range_len start stop step)).

(** [re.sub(r'[cls]+', repl, s)]: every maximal run of characters of the
    class is replaced by the single character [repl].  [in_run] tells
    whether the previous character belonged to the run being replaced. *)
Fixpoint sub_runs (cls : char -> bool) (repl : char) (in_run : bool)
         (s : str) : str :=
  match s with
  | [] => []
  | c :: s' =>
      if cls c
      then if in_run then sub_runs cls repl true s'
           else repl :: sub_runs cls repl true s'
      else c :: sub_runs cls repl false s'
  end.

Definition re_sub_runs (cls : char -> bool) (repl : char) (s : str) : str :=
  sub_runs cls repl false s.

(** Prepend a character to the piece under construction. *)
Definition push_char (c : char) (pieces : list str) : list str :=
  match pieces with
  | p :: ps => (c :: p) :: ps
  | [] => [[c]]
  end.

(** [s.split(sep)] for a one-character separator. *)
Fixpoint split_char (sep : char) (s : str) : list str :=
  match s with
  | [] => [[]]
  | c :: s' =>
      if (c =? sep)%N then [] :: split_char sep s'
      else push_char c (split_char sep s')
  end.

(** [re.split(r'(?<=[P])\s+', s)]: a separator is a maximal whitespace run
    whose first character directly follows a character of [P].
    [after_p]: the previous character is in [P]; [in_sep]: the previous
    character was consumed by the separator being matched. *)
Fixpoint split_after (p : char -> bool) (after_p in_sep : bool) (s : str)
  : list str :=
  match s with
  | [] => [[]]
  | c :: s' =>
      if is_space c && in_sep then split_after p false true s'
      else if is_space c && after_p then [] :: split_after p false true s'
      else push_char c (split_after p (p c) false s')
  end.

Definition re_split_after (p : char -> bool) (s : str) : list str :=
  split_after p false false s.

End Py.

Import Py.

(** ** Pure functions of the module *)

(** [MAX_CHARS = 6000] *)
Definition MAX_CHARS : Z := 6000.

Definition is_blank_or_tab (c : char) : bool := ((c =? 32) || (c =? 9))%N.
Definition is_newline (c : char) : bool := (c =? 10)%N.

(** [clean_chunk(text)] *)
Definition clean_chunk (text : str) : str :=
  let text := re_sub_runs is_blank_or_tab 32%N text in
  let text := re_sub_runs is_newline 10%N text in
  strip text.

(** Exceptions the module can raise or let through. *)
Inductive exn : Type :=
| FileNotFoundError (path : str)          (* f"File not found: {file_path}" *)
| UnsupportedFormat (file_ext : str)      (* ValueError("Unsupported file format: ...") *)
| UnsupportedStrategy (strategy : str)    (* ValueError("Unsupported chunking strategy: ...") *)
| RangeStepZero                           (* ValueError: range() arg 3 must not be zero *)
| External (is_exception : bool) (code : nat).
    (* raised by a collaborator; [is_exception] tells whether its class
       derives from [Exception] (and not only from [BaseException]) *)

Inductive result (A : Type) : Type :=
| Ok (a : A)
| Raise (e : exn).
Arguments Ok {A} a.
Arguments Raise {A} e.

(** [enforce_max_length(text, max_chars)] *)
Definition enforce_max_length (text : str) (max_chars : Z) : result (list str) :=
  if max_chars =? 0 then Raise RangeStepZero
  else if max_chars <? 0 then Ok []
  else Ok (List.map (fun i => slice text i (i + max_chars))
                    (range_pos 0 (len text) max_chars)).

(** The [while] loop of [split_text_fixed], one iteration per unit of
    [fuel]; [None] when the loop has not exited after [fuel] iterations. *)
Fixpoint fixed_loop (fuel : nat) (text : str) (chunk_size overlap : Z)
         (start : Z) (chunks : list str) : option (list str) :=
  if start <? len text then
    match fuel with
    | O => None
    | S fuel' =>
        let end_ := start + chunk_size in
        let chunk := slice text start end_ in
        let chunks := if truthy (strip chunk) then chunks ++ [chunk] else chunks in
        fixed_loop fuel' text chunk_size overlap
                   (start + (chunk_size - overlap)) chunks
    end
  else Some chunks.

(** [split_text_fixed(text, chunk_size, overlap)], run for at most
    [len(text)] iterations. *)
Definition split_text_fixed (text : str) (chunk_size overlap : Z)
  : option (list str) :=
  fixed_loop (List.length text) text chunk_size overlap 0 [].

(** [split_text_fixed(text)] with the default [chunk_size=500, overlap=50];
    the [None] branch is never taken ([split_text_fixed_default_total]). *)
Definition split_text_fixed_default (text : str) : list str :=
  match split_text_fixed text 500 50 with
  | Some chunks => chunks
  | None => []
  end.

Definition is_sentence_end (c : char) : bool :=
  ((c =? 46) || (c =? 33) || (c =? 63))%N.      (* . ! ? *)

(** [split_text_sentence(text)] *)
Definition split_text_sentence (text : str) : list str :=
  let sentences := re_split_after is_sentence_end text in
  List.filter (fun s => truthy (strip s)) sentences.

(** [split_text_paragraph(text)] *)
Definition split_text_paragraph (text : str) : list str :=
  let paragraphs := split_char 10%N text in
  List.filter (fun p => truthy (strip p)) paragraphs.

(** [chunk_text(text, strategy)] *)
Definition chunk_text (text strategy : str) : result (list str) :=
  if str_eqb strategy (lit "fixed") then Ok (split_text_fixed_default text)
  else if str_eqb strategy (lit "sentence") then Ok (split_text_sentence text)
  else if str_eqb strategy (lit "paragraph") then Ok (split_text_paragraph text)
  else Raise (UnsupportedStrategy strategy).

(** ** Paths ([pathlib], POSIX flavour) *)

Definition is_path_part (comp : str) : bool :=
  truthy comp && negb (str_eqb comp (lit ".")).

(** [Path(p).name]: the last component, [''] when there is none. *)
Definition path_name (p : str) : str :=
  last (List.filter is_path_part (split_char 47%N p)) [].

(** [s.rfind(c)] scanning from offset [i]; [found] is the last hit so far. *)
Fixpoint rfind_from (c : char) (s : str) (i found : Z) : Z :=
  match s with
  | [] => found
  | x :: s' => rfind_from c s' (i + 1) (if (x =? c)%N then i else found)
  end.

Definition rfind (c : char) (s : str) : Z := rfind_from c s 0 (-1).

(** [Path(p).suffix] *)
Definition path_suffix (p : str) : str :=
  let name := path_name p in
  let i := rfind 46%N name in
  if (0 <? i) && (i <? len name - 1) then slice name i (len name) else [].

(** ** The outside world *)

Definition embedding := list float.

(** One row of [document_embeddings]. *)
Record row : Type := mkRow {
  row_chunk_text : str;
  row_embedding : embedding;
  row_filename : str;
  row_strategy_split : str
}.

(** Lines written to standard output. *)
Inductive message : Type :=
| MsgProcessing (filename : str)
| MsgCreated (n : Z) (strategy : str)
| MsgProcessedChunk (chunk_counter : Z)
| MsgStored (chunk_counter : Z).

(** What the collaborators answer.  Embedding calls and inserts are numbered
    from 0 in the order the run makes them. *)
Record world : Type := mkWorld {
  path_exists : str -> bool;                     (* os.path.exists *)
  lower_non_ascii : char -> str;                 (* str.lower() above U+007F *)
  pdf_pages : str -> result (list str);          (* PdfReader(...).pages, extracted *)
  docx_paragraphs : str -> result (list str);    (* Document(...).paragraphs, .text *)
  connect_error : option exn;                    (* psycopg2.connect *)
  embed_content : nat -> str -> result embedding;
  execute_error : nat -> row -> option exn;      (* cursor.execute(INSERT ...) *)
  commit_error : option exn;
  rollback_error : option exn;
  print_error : message -> option exn            (* print(...) to sys.stdout *)
}.

(** Calls that leave the process, with their outcome. *)
Inductive event : Type :=
| EvExists (path : str)
| EvPrint (m : message)
| EvPrintFailed (m : message) (e : exn)
| EvReadPdf (path : str)
| EvReadDocx (path : str)
| EvConnect (err : option exn)
| EvEmbed (text : str) (r : result embedding)
| EvInsert (r : row) (err : option exn)
| EvCommit (err : option exn)
| EvRollback (err : option exn)
| EvClose.

Inductive conn_status : Type := NotConnected | Open | Closed.

(** [visible]: committed rows of the table, what any reader sees;
    [pending]: rows written inside the open transaction. *)
Record state : Type := mkState {
  visible : list row;
  pending : list row;
  conn : conn_status;
  embed_calls : nat;
  insert_calls : nat;
  trace : list event
}.

Definition init_state (db : list row) : state :=
  mkState db [] NotConnected 0 0 [].

(** Values a function of the module hands back to its caller. *)
Inductive value : Type := VNone | VInt (n : Z).

(** ** State and exception monad *)

Definition M (A : Type) : Type := state -> result A * state.

Definition ret {A} (a : A) : M A := fun s => (Ok a, s).

Definition bind {A B} (m : M A) (k : A -> M B) : M B :=
  fun s => match m s with
           | (Ok a, s') => k a s'
           | (Raise e, s') => (Raise e, s')
           end.

Definition raise {A} (e : exn) : M A := fun s => (Raise e, s).

Definition lift {A} (r : result A) : M A := fun s => (r, s).

Definition log (ev : event) : M unit :=
  fun s => (Ok tt, mkState (visible s) (pending s) (conn s) (embed_calls s)
                           (insert_calls s) (trace s ++ [ev])).

Notation "x <- m ;; k" := (bind m (fun x => k))
  (at level 61, m at next level, right associativity).
Notation "m ;;; k" := (bind m (fun _ => k))
  (at level 61, right associativity).

(** [except Exception] catches what derives from [Exception]. *)
Definition is_Exception (e : exn) : bool :=
  match e with
  | External is_exception _ => is_exception
  | _ => true
  end.

(** [try: body  except Exception as e: handler e  finally: final] *)
Definition try_except_finally {A} (body : M A) (handler : exn -> M A)
           (final : M unit) : M A :=
  fun s =>
    let '(r, s1) :=
      match body s with
      | (Raise e, s') => if is_Exception e then handler e s' else (Raise e, s')
      | (Ok a, s') => (Ok a, s')
      end in
    match final s1 with
    | (Ok _, s2) => (r, s2)
    | (Raise e', s2) => (Raise e', s2)
    end.

(** [for x in xs: acc = body(acc, x)] *)
Fixpoint for_each {A B} (xs : list A) (acc : B) (body : B -> A -> M B) : M B :=
  match xs with
  | [] => ret acc
  | x :: xs' => acc' <- body acc x ;; for_each xs' acc' body
  end.

(** ** The pipeline *)

Section Pipeline.

Variable w : world.

(** [s.lower()] *)
Definition lower_char (c : char) : str :=
  if ((65 <=? c) && (c <=? 90))%N then [(c + 32)%N]
  else if (c <? 128)%N then [c]
  else lower_non_ascii w c.

Definition lower (s : str) : str := flat_map lower_char s.

(** [extract_text_from_pdf(file_path)] *)
Definition extract_text_from_pdf (file_path : str) : M str :=
  log (EvReadPdf file_path) ;;;
  pages <- lift (pdf_pages w file_path) ;;
  ret (fold_left (fun text page_text =>
                    if truthy page_text then text ++ page_text ++ [10%N]
                    else text)
                 pages []).

(** [extract_text_from_docx(file_path)] *)
Definition extract_text_from_docx (file_path : str) : M str :=
  log (EvReadDocx file_path) ;;;
  paragraphs <- lift (docx_paragraphs w file_path) ;;
  ret (fold_left (fun text paragraph => text ++ paragraph ++ [10%N])
                 paragraphs []).

(** [Path(file_path).suffix.lower()] *)
Definition file_extension (file_path : str) : str :=
  lower (path_suffix file_path).

(** [extract_text(file_path)] *)
Definition extract_text (file_path : str) : M str :=
  let file_ext := file_extension file_path in
  if str_eqb file_ext (lit ".pdf") then extract_text_from_pdf file_path
  else if str_eqb file_ext (lit ".docx") then extract_text_from_docx file_path
  else raise (UnsupportedFormat file_ext).

(** [print(...)]: the line reaches standard output, or writing it raises
    (an encoding that cannot hold the line, a closed pipe). *)
Definition print (m : message) : M unit :=
  match print_error w m with
  | None => log (EvPrint m)
  | Some e => log (EvPrintFailed m e) ;;; raise e
  end.

(** [os.path.exists(file_path)] *)
Definition os_path_exists (file_path : str) : M bool :=
  log (EvExists file_path) ;;; ret (path_exists w file_path).

(** [generate_embedding(text)] *)
Definition generate_embedding (text : str) : M embedding :=
  fun s =>
    let r := embed_content w (embed_calls s) text in
    (r, mkState (visible s) (pending s) (conn s) (S (embed_calls s))
                (insert_calls s) (trace s ++ [EvEmbed text r])).

(** [get_db_connection()] *)
Definition get_db_connection : M unit :=
  fun s =>
    match connect_error w with
    | Some e =>
        (Raise e, mkState (visible s) (pending s) (conn s) (embed_calls s)
                          (insert_calls s) (trace s ++ [EvConnect (Some e)]))
    | None =>
        (Ok tt, mkState (visible s) [] Open (embed_calls s)
                        (insert_calls s) (trace s ++ [EvConnect None]))
    end.

(** [insert_to_db(conn, chunk_text, embedding, filename, strategy)]: the
    row joins the open transaction. *)
Definition insert_to_db (chunk_text : str) (emb : embedding)
           (filename strategy : str) : M unit :=
  fun s =>
    let r := mkRow chunk_text emb filename strategy in
    let err := execute_error w (insert_calls s) r in
    let s' := mkState (visible s)
                      (match err with
                       | None => pending s ++ [r]
                       | Some _ => pending s
                       end)
                      (conn s) (embed_calls s) (S (insert_calls s))
                      (trace s ++ [EvInsert r err]) in
    match err with
    | None => (Ok tt, s')
    | Some e => (Raise e, s')
    end.

(** [conn.commit()]: the rows of the transaction become visible. *)
Definition conn_commit : M unit :=
  fun s =>
    match commit_error w with
    | Some e =>
        (Raise e, mkState (visible s) (pending s) (conn s) (embed_calls s)
                          (insert_calls s) (trace s ++ [EvCommit (Some e)]))
    | None =>
        (Ok tt, mkState (visible s ++ pending s) [] (conn s) (embed_calls s)
                        (insert_calls s) (trace s ++ [EvCommit None]))
    end.

(** [conn.rollback()]: the rows of the transaction are discarded. *)
Definition conn_rollback : M unit :=
  fun s =>
    match rollback_error w with
    | Some e =>
        (Raise e, mkState (visible s) (pending s) (conn s) (embed_calls s)
                          (insert_calls s) (trace s ++ [EvRollback (Some e)]))
    | None =>
        (Ok tt, mkState (visible s) [] (conn s) (embed_calls s)
                        (insert_calls s) (trace s ++ [EvRollback None]))
    end.

(** [conn.close()]: what was not committed is discarded with the
    connection. *)
Definition conn_close : M unit :=
  fun s =>
    (Ok tt, mkState (visible s) [] Closed (embed_calls s)
                    (insert_calls s) (trace s ++ [EvClose])).

(** Body of [for safe_chunk in safe_chunks]. *)
Definition process_safe_chunk (filename strategy : str)
           (chunk_counter : Z) (safe_chunk : str) : M Z :=
  emb <- generate_embedding safe_chunk ;;
  insert_to_db safe_chunk emb filename strategy ;;;
  let chunk_counter := chunk_counter + 1 in
  print (MsgProcessedChunk chunk_counter) ;;;
  ret chunk_counter.

(** Body of [for chunk in chunks]. *)
Definition process_chunk (filename strategy : str)
           (chunk_counter : Z) (chunk : str) : M Z :=
  safe_chunks <- lift (enforce_max_length chunk MAX_CHARS) ;;
  for_each safe_chunks chunk_counter (process_safe_chunk filename strategy).

(** The [try] block of [process_document]. *)
Definition store_chunks (filename strategy : str) (chunks : list str)
  : M value :=
  let chunk_counter := 0 in
  chunk_counter <- for_each chunks chunk_counter
                            (process_chunk filename strategy) ;;
  conn_commit ;;;
  print (MsgStored chunk_counter) ;;;
  ret VNone.

(** [process_document(file_path, strategy)] *)
Definition process_document (file_path strategy : str) : M value :=
  present <- os_path_exists file_path ;;
  if negb present then raise (FileNotFoundError file_path)
  else
    let filename := path_name file_path in
    print (MsgProcessing filename) ;;;
    text <- extract_text file_path ;;
    chunks <- lift (chunk_text text strategy) ;;
    let chunks := List.map clean_chunk chunks in
    print (MsgCreated (len chunks) strategy) ;;;
    get_db_connection ;;;
    try_except_finally
      (store_chunks filename strategy chunks)
      (fun e => conn_rollback ;;; raise e)
      conn_close.

End Pipeline.

(** A run on a table holding the rows [db]: what [process_document] hands
    back or raises, and the state it leaves. *)
Definition outcome (w : world) (file_path strategy : str) (db : list row)
  : result value :=
  fst (process_document w file_path strategy (init_state db)).

Definition final (w : world) (file_path strategy : str) (db : list row)
  : state :=
  snd (process_document w file_path strategy (init_state db)).

(** ** Configuration and entry point *)

(** [required_vars] of [setup_env]. *)
Definition required_vars : list str :=
  [lit "POSTGRES_HOST"; lit "POSTGRES_PORT"; lit "POSTGRES_DB";
   lit "POSTGRES_USER"; lit "POSTGRES_PASSWORD"; lit "GEMINI_API_KEY"].

(** Truth value of [os.getenv(var)]: set, and not to the empty string. *)
Definition getenv_truthy (v : option str) : bool :=
  match v with
  | Some (_ :: _) => true
  | _ => false
  end.

(** Outcome of [setup_env]: it returns, or raises
    [ValueError(f"Missing required environment variable: {var}")]. *)
Inductive config_check : Type :=
| ConfigOk
| ConfigMissing (var : str).

(** [for var in required_vars: if not os.getenv(var): raise ...] *)
Fixpoint check_vars (environ : str -> option str) (vars : list str)
  : config_check :=
  match vars with
  | [] => ConfigOk
  | var :: vars' =>
      if negb (getenv_truthy (environ var)) then ConfigMissing var
      else check_vars environ vars'
  end.

(** [setup_env()]; [environ] is the process environment once
    [load_dotenv()] has run. *)
Definition setup_env (environ : str -> option str) : config_check :=
  check_vars environ required_vars.

(** What [main] prints on the error stream: [f"Error: {e}"].  The error
    stream escapes the characters it cannot encode, where standard output
    raises. *)
Inductive failure : Type :=
| ConfigurationError (var : str)
| PipelineError (e : exn).

(** How [main] ends: it returns, it calls [sys.exit(code)], or an exception
    that [except Exception] does not catch leaves it. *)
Inductive exit_status : Type :=
| ExitNormally
| SystemExit (code : Z)
| Uncaught (e : exn).

(** [main()], from the parsed arguments [args.file_path] and
    [args.strategy] on: exit status, error stream, final state. *)
Definition main (w : world) (environ : str -> option str)
           (file_path strategy : str) (db : list row)
  : exit_status * list failure * state :=
  match setup_env environ with
  | ConfigMissing var =>
      (SystemExit 1, [ConfigurationError var], init_state db)
  | ConfigOk =>
      match process_document w file_path strategy (init_state db) with
      | (Ok _, s) => (ExitNormally, [], s)
      | (Raise e, s) =>
          if is_Exception e then (SystemExit 1, [PipelineError e], s)
          else (Uncaught e, [], s)
      end
  end.

(** An environment with every required variable set. *)
Definition full_environ : str -> option str := fun _ => Some (lit "x").

(** An environment without [POSTGRES_DB]. *)
Definition partial_environ : str -> option str :=
  fun var => if str_eqb var (lit "POSTGRES_DB") then None else Some (lit "x").

(** ** Sample worlds *)

Definition quiet_world : world :=
  mkWorld (fun _ => true) (fun c => [c])
          (fun _ => Ok [lit "Hello world."]) (fun _ => Ok [lit "Hello world."])
          None (fun _ _ => Ok []) (fun _ _ => None) None None
          (fun _ => None).

(** The embedding service fails on the second call. *)
Definition flaky_world : world :=
  mkWorld (fun _ => true) (fun c => [c])
          (fun _ => Ok [lit "A. B! C?"]) (fun _ => Ok [])
          None
          (fun k _ => if Nat.eqb k 1 then Raise (External true 503) else Ok [])
          (fun _ _ => None) None None
          (fun _ => None).

(** The second insert is interrupted by an exception that does not derive
    from [Exception] (a [KeyboardInterrupt], say). *)
Definition interrupted_world : world :=
  mkWorld (fun _ => true) (fun c => [c])
          (fun _ => Ok [lit "A. B! C?"]) (fun _ => Ok [])
          None (fun _ _ => Ok [])
          (fun k _ => if Nat.eqb k 1 then Some (External false 2) else None)
          None None
          (fun _ => None).

(** A one-paragraph document: [a], 12000 carriage returns, [b]. *)
Definition long_gap_world : world :=
  mkWorld (fun _ => true) (fun c => [c])
          (fun _ => Ok [lit "a" ++ repeat 13%N (Z.to_nat 12000) ++ lit "b"])
          (fun _ => Ok [])
          None (fun _ _ => Ok []) (fun _ _ => None) None None
          (fun _ => None).

(** The document holds whitespace only. *)
Definition blank_world : world :=
  mkWorld (fun _ => true) (fun c => [c])
          (fun _ => Ok [lit "   "]) (fun _ => Ok [lit "   "])
          None (fun _ _ => Ok []) (fun _ _ => None) None None
          (fun _ => None).

(** The database cannot be reached. *)
Definition offline_world : world :=
  mkWorld (fun _ => true) (fun c => [c])
          (fun _ => Ok [lit "Hello world."]) (fun _ => Ok [lit "Hello world."])
          (Some (External true 111))
          (fun _ _ => Ok []) (fun _ _ => None) None None
          (fun _ => None).

(** No file exists. *)
Definition empty_disk_world : world :=
  mkWorld (fun _ => false) (fun c => [c])
          (fun _ => Ok []) (fun _ => Ok [])
          None (fun _ _ => Ok []) (fun _ _ => None) None None
          (fun _ => None).

(** A DOCX document of three paragraphs, the second one empty. *)
Definition memo_world : world :=
  mkWorld (fun _ => true) (fun c => [c])
          (fun _ => Ok [])
          (fun _ => Ok [lit "Dear all,"; lit ""; lit "See you on Monday."])
          None (fun _ _ => Ok []) (fun _ _ => None) None None
          (fun _ => None).

(** The text a progress line takes from the run: the file name on line
    149, the strategy on line 160; the two other lines format a counter. *)
Definition message_args (m : message) : str :=
  match m with
  | MsgProcessing filename => filename
  | MsgCreated _ strategy => strategy
  | MsgProcessedChunk _ => []
  | MsgStored _ => []
  end.

(** Lines that an ASCII standard output can encode: the line of the final
    report starts with U+2705 and is none of them. *)
Definition ascii_encodable (m : message) : bool :=
  match m with
  | MsgStored _ => false
  | _ => forallb (fun c => (c <? 128)%N) (message_args m)
  end.

(** Lines that a UTF-8 standard output can encode: all but those holding
    a surrogate (U+D800 to U+DFFF), which is how a file name carries a
    byte that is not UTF-8. *)
Definition utf8_encodable (m : message) : bool :=
  forallb (fun c => negb ((55296 <=? c)%N && (c <=? 57343)%N))
          (message_args m).

Definition UnicodeEncodeError : exn := External true 84.

(** Standard output is ASCII: it cannot encode the check mark of the last
    progress line. *)
Definition ascii_stdout_world : world :=
  mkWorld (fun _ => true) (fun c => [c])
          (fun _ => Ok [lit "Hello world."]) (fun _ => Ok [lit "Hello world."])
          None (fun _ _ => Ok []) (fun _ _ => None) None None
          (fun m => if ascii_encodable m then None
                    else Some UnicodeEncodeError).

(** Standard output is UTF-8: it cannot encode a file name that holds a
    surrogate. *)
Definition unprintable_name_world : world :=
  mkWorld (fun _ => true) (fun c => [c])
          (fun _ => Ok [lit "Hello world."]) (fun _ => Ok [lit "Hello world."])
          None (fun _ _ => Ok []) (fun _ _ => None) None None
          (fun m => if utf8_encodable m then None
                    else Some UnicodeEncodeError).

(** A file name with the byte 0x80, decoded as U+DC80. *)
Definition surrogate_name : str := lit "notes" ++ [56448%N] ++ lit ".txt".

(** The embedding service fails on the second call and the rollback that
    follows fails in its turn. *)
Definition broken_rollback_world : world :=
  mkWorld (fun _ => true) (fun c => [c])
          (fun _ => Ok [lit "A. B! C?"]) (fun _ => Ok [])
          None
          (fun k _ => if Nat.eqb k 1 then Raise (External true 503) else Ok [])
          (fun _ _ => None) None (Some (External true 57))
          (fun _ => None).

(** ** Vocabulary of the properties *)

(** What [enforce_max_length] returns for a positive budget. *)
Definition windows (text : str) (m : Z) : list str :=
  List.map (fun i => slice text i (i + m)) (range_pos 0 (len text) m).

(** A string that is empty or starts with a visible character. *)
Definition starts_clean (s : str) : Prop :=
  match s with [] => True | c :: _ => is_space c = false end.

(** A string is blank when it has whitespace only. *)
Definition blank (s : str) : bool := forallb is_space s.

(** [tidy cls repl prev s]: the class occurs in [s] only as single
    occurrences of [repl]; [prev] tells whether a class character precedes. *)
Fixpoint tidy (cls : char -> bool) (repl : char) (prev : bool) (s : str) : bool :=
  match s with
  | [] => true
  | c :: s' =>
      if cls c then negb prev && (c =? repl)%N && tidy cls repl true s'
      else tidy cls repl false s'
  end.

(** What is known of a text handed to the embedding client and the
    storage sink. *)
Definition stored_ok (t : str) : Prop :=
  t <> [] /\ len t <= MAX_CHARS /\ (len t < MAX_CHARS -> blank t = false).

(** The exception of a failed embedding call or storage write. *)
Definition failed_call (ev : event) : option exn :=
  match ev with
  | EvEmbed _ (Raise e) => Some e
  | EvInsert _ (Some e) => Some e
  | _ => None
  end.

(** The exception of a call of the run that failed: an embedding call, a
    storage write or a line of output. *)
Definition failed_event (ev : event) : option exn :=
  match ev with
  | EvPrintFailed _ e => Some e
  | _ => failed_call ev
  end.

(** Events of the loop over the sub-chunks [subs]. *)
Definition loop_event (filename strategy : str) (subs : list str) (ev : event)
  : Prop :=
  match ev with
  | EvEmbed t _ => In t subs
  | EvInsert r _ =>
      In (row_chunk_text r) subs
      /\ row_filename r = filename /\ row_strategy_split r = strategy
  | EvPrint (MsgProcessedChunk _) => True
  | EvPrintFailed (MsgProcessedChunk _) _ => True
  | _ => False
  end.

(** Events before the transaction is opened. *)
Definition pre_event (ev : event) : Prop :=
  match ev with
  | EvExists _ | EvReadPdf _ | EvReadDocx _ | EvConnect (Some _) => True
  | EvPrint (MsgProcessing _) | EvPrint (MsgCreated _ _) => True
  | EvPrintFailed (MsgProcessing _) _ | EvPrintFailed (MsgCreated _ _) _ => True
  | _ => False
  end.

(** Events that end the transaction. *)
Definition post_event (ev : event) : Prop :=
  match ev with
  | EvCommit _ | EvRollback _ | EvClose | EvPrint (MsgStored _) => True
  | EvPrintFailed (MsgStored _) _ => True
  | _ => False
  end.

(** Sub-chunks handed to the embedding client, in order. *)
Definition safe_chunks_of (chunks : list str) : list str :=
  flat_map (fun c => windows c MAX_CHARS) chunks.

(** What follows a failure [e] inside the [try] block. *)
Definition abort_tail (w : world) (e : exn) : list event :=
  (if is_Exception e then [EvRollback (rollback_error w)] else []) ++ [EvClose].

(** What the run raises after a failure [e] inside the [try] block. *)
Definition abort_exn (w : world) (e : exn) : exn :=
  if is_Exception e
  then match rollback_error w with Some e2 => e2 | None => e end
  else e.

(** Outcome of the loop over [subs], started with counter [n0] in [s0]. *)
Definition loop_post (filename strategy : str) (subs : list str) (n0 : Z)
           (s0 : state) (lr : result Z) (s1 : state) : Prop :=
  exists rows evs,
    visible s1 = visible s0 /\ conn s1 = conn s0
    /\ pending s1 = pending s0 ++ rows
    /\ trace s1 = trace s0 ++ evs
    /\ Forall (loop_event filename strategy subs) evs
    /\ Forall (fun r => In (row_chunk_text r) subs
                        /\ row_filename r = filename
                        /\ row_strategy_split r = strategy) rows
    /\ match lr with
       | Ok n =>
           n = n0 + len subs
           /\ List.map row_chunk_text rows = subs
           /\ Forall (fun x => failed_event x = None) evs
       | Raise e =>
           exists evs0 ev,
             evs = evs0 ++ [ev]
             /\ Forall (fun x => failed_event x = None) evs0
             /\ failed_event ev = Some e
       end.


(** The characters of a string that are not whitespace, in order. *)
Definition visible_chars (s : str) : str :=
  List.filter (fun c => negb (is_space c)) s.

(** [s] ends with a character of the class [p]. *)
Definition ends_with (p : char -> bool) (s : str) : Prop :=
  exists body c, s = body ++ [c] /\ p c = true.

(** * Properties *)

(** ** Lengths and slices *)

Lemma len_nonneg {A} (s : list A) : 0 <= len s.
Proof. unfold len. lia. Qed.

Lemma firstn_plus {A} (a b : nat) (l : list A) :
  firstn (a + b) l = firstn a l ++ firstn b (skipn a l).
Proof.
  revert l. induction a as [|a IH]; intros [|x l]; simpl; trivial.
  - now rewrite firstn_nil.
  - now rewrite IH.
Qed.

(** A window [s[i:i+m]] with [i], [m] non-negative. *)
Lemma slice_window (s : str) (i m : Z) :
  0 <= i -> 0 <= m ->
  slice s i (i + m) = firstn (Z.to_nat m) (skipn (Z.to_nat i) s).
Proof.
  intros Hi Hm. unfold slice, clamp.
  pose proof (len_nonneg s) as Hl.
  assert (Hs : List.length (skipn (Z.to_nat i) s) = (List.length s - Z.to_nat i)%nat)
    by apply length_skipn.
  destruct (i <? 0) eqn:E1; [lia|]. destruct (i + m <? 0) eqn:E2; [lia|].
  apply Z.ltb_ge in E1, E2. unfold len in *.
  destruct (Z.le_gt_cases (Z.of_nat (List.length s)) i) as [Hge|Hlt].
  - rewrite !(skipn_all2 s) by lia. now rewrite !firstn_nil.
  - rewrite (Z.min_l i) by lia.
    destruct (Z.le_gt_cases (i + m) (Z.of_nat (List.length s))) as [H1|H1].
    + rewrite Z.min_l by lia. f_equal. lia.
    + rewrite Z.min_r by lia.
      rewrite !firstn_all2; trivial; rewrite Hs; lia.
Qed.

Lemma slice_length_le (s : str) (i m : Z) :
  0 <= i -> 0 <= m -> len (slice s i (i + m)) <= m.
Proof.
  intros Hi Hm. rewrite slice_window by assumption. unfold len.
  pose proof (firstn_le_length (Z.to_nat m) (skipn (Z.to_nat i) s)). lia.
Qed.

Lemma slice_nonempty (s : str) (i m : Z) :
  0 <= i < len s -> 0 < m -> slice s i (i + m) <> [].
Proof.
  intros Hi Hm. rewrite slice_window by lia. unfold len in Hi.
  intros E. apply (f_equal (@List.length _)) in E.
  rewrite length_firstn, length_skipn in E. simpl in E. lia.
Qed.

Lemma slice_whole (s : str) (m : Z) : len s <= m -> slice s 0 (0 + m) = s.
Proof.
  intros H. pose proof (len_nonneg s). rewrite slice_window by lia.
  simpl. apply firstn_all2. unfold len in H. lia.
Qed.

(** ** [range] with a positive step *)

Lemma range_len_done (start stop step : Z) :
  stop <= start -> range_len start stop step = O.
Proof.
  intros H. unfold range_len. destruct (start <? stop) eqn:E; trivial.
  apply Z.ltb_lt in E. lia.
Qed.

Lemma range_len_step (start stop step : Z) :
  0 < step -> start < stop ->
  range_len start stop step = S (range_len (start + step) stop step).
Proof.
  intros Hs Hlt. unfold range_len.
  destruct (start <? stop) eqn:E; [|apply Z.ltb_ge in E; lia].
  replace (stop - start + step - 1) with ((stop - (start + step) + step - 1) + 1 * step) by lia.
  rewrite Z.div_add by lia.
  destruct (start + step <? stop) eqn:E2.
  - apply Z.ltb_lt in E2.
    assert (0 <= (stop - (start + step) + step - 1) / step)
      by (apply Z.div_pos; lia).
    lia.
  - apply Z.ltb_ge in E2.
    rewrite Z.div_small by lia. reflexivity.
Qed.

Lemma range_pos_done (start stop step : Z) :
  stop <= start -> range_pos start stop step = [].
Proof. intros H. unfold range_pos. now rewrite range_len_done. Qed.

Lemma range_pos_step (start stop step : Z) :
  0 < step -> start < stop ->
  range_pos start stop step = start :: range_pos (start + step) stop step.
Proof.
  intros Hs Hlt. unfold range_pos. rewrite range_len_step by assumption.
  simpl. f_equal; [lia|].
  rewrite <- seq_shift, map_map. apply map_ext. intros k. lia.
Qed.

Lemma range_len_bound (stop step : Z) :
  0 < step -> 0 <= stop ->
  stop <= Z.of_nat (range_len 0 stop step) * step.
Proof.
  intros Hs Hn. unfold range_len. destruct (0 <? stop) eqn:E.
  - apply Z.ltb_lt in E.
    assert (0 <= (stop - 0 + step - 1) / step) by (apply Z.div_pos; lia).
    rewrite Z2Nat.id by assumption.
    pose proof (Z.div_mod (stop - 0 + step - 1) step ltac:(lia)).
    pose proof (Z.mod_pos_bound (stop - 0 + step - 1) step Hs). nia.
  - apply Z.ltb_ge in E. simpl. lia.
Qed.

Lemma range_pos_spec (start stop step i : Z) :
  0 < step -> In i (range_pos start stop step) -> start <= i < stop.
Proof.
  intros Hs. unfold range_pos. rewrite in_map_iff. intros (k & <- & Hk).
  apply in_seq in Hk. unfold range_len in Hk.
  destruct (start <? stop) eqn:E; [|simpl in Hk; lia].
  apply Z.ltb_lt in E.
  assert (H0 : 0 <= (stop - start + step - 1) / step) by (apply Z.div_pos; lia).
  pose proof (Z.div_mod (stop - start + step - 1) step ltac:(lia)).
  pose proof (Z.mod_pos_bound (stop - start + step - 1) step Hs).
  assert (Z.of_nat k < (stop - start + step - 1) / step) by lia.
  nia.
Qed.

(** ** Length enforcer *)

Lemma enforce_max_length_pos (text : str) (m : Z) :
  0 < m -> enforce_max_length text m = Ok (windows text m).
Proof.
  intros H. unfold enforce_max_length.
  destruct (m =? 0) eqn:E0; [apply Z.eqb_eq in E0; lia|].
  destruct (m <? 0) eqn:E1; [apply Z.ltb_lt in E1; lia|]. reflexivity.
Qed.

Lemma concat_windows_prefix (text : str) (m : nat) (n : nat) :
  List.concat (List.map (fun k => firstn m (skipn (k * m) text)) (seq 0 n))
  = firstn (n * m) text.
Proof.
  induction n as [|n IH]; [reflexivity|].
  rewrite seq_S, map_app, concat_app, IH. simpl.
  rewrite app_nil_r. replace (m + n * m)%nat with (n * m + m)%nat by lia.
  now rewrite firstn_plus.
Qed.

Lemma windows_concat (text : str) (m : Z) :
  0 < m -> List.concat (windows text m) = text.
Proof.
  intros Hm. unfold windows, range_pos. rewrite map_map.
  rewrite (map_ext_in _ (fun k => firstn (Z.to_nat m) (skipn (k * Z.to_nat m) text))).
  - rewrite concat_windows_prefix. apply firstn_all2.
    pose proof (range_len_bound (len text) m Hm (len_nonneg text)).
    unfold len in *. nia.
  - intros k _. rewrite slice_window by lia. do 2 f_equal. nia.
Qed.

Lemma windows_bounded (text : str) (m : Z) :
  0 < m -> Forall (fun p => len p <= m) (windows text m).
Proof.
  intros Hm. apply Forall_forall. intros p Hp. unfold windows in Hp.
  apply in_map_iff in Hp. destruct Hp as (i & <- & Hi).
  apply range_pos_spec in Hi; trivial. apply slice_length_le; lia.
Qed.

Lemma windows_nonempty (text : str) (m : Z) :
  0 < m -> Forall (fun p => p <> []) (windows text m).
Proof.
  intros Hm. apply Forall_forall. intros p Hp. unfold windows in Hp.
  apply in_map_iff in Hp. destruct Hp as (i & <- & Hi).
  apply range_pos_spec in Hi; trivial. apply slice_nonempty; lia.
Qed.

Lemma windows_single (text : str) (m : Z) :
  text <> [] -> len text <= m -> windows text m = [text].
Proof.
  intros Hne Hle. pose proof (len_nonneg text).
  assert (0 < len text) by (destruct text; [congruence|unfold len; simpl; lia]).
  unfold windows. rewrite range_pos_step by lia.
  rewrite range_pos_done by lia. simpl. f_equal. now apply slice_whole.
Qed.

Lemma windows_empty (m : Z) : windows [] m = [].
Proof. reflexivity. Qed.

(** ** Whitespace: [strip] *)

Lemma rstrip_eq (s : str) : rstrip s = rev (lstrip (rev s)).
Proof. unfold rstrip. now rewrite <- !rev_alt. Qed.

Lemma lstrip_starts_clean (s : str) : starts_clean (lstrip s).
Proof.
  induction s as [|c s IH]; simpl; trivial.
  destruct (is_space c) eqn:E; simpl; trivial.
Qed.

Lemma lstrip_fixed (s : str) : starts_clean s -> lstrip s = s.
Proof. destruct s as [|c s]; simpl; trivial. now intros ->. Qed.

Lemma lstrip_suffix (s : str) :
  exists hd, s = hd ++ lstrip s /\ forallb is_space hd = true.
Proof.
  induction s as [|c s (hd & E & H)]; simpl.
  - now exists [].
  - destruct (is_space c) eqn:Ec.
    + exists (c :: hd). simpl. rewrite Ec, H. now rewrite <- E.
    + now exists [].
Qed.

Lemma rstrip_prefix (s : str) :
  exists tl, s = rstrip s ++ tl /\ forallb is_space tl = true.
Proof.
  rewrite !rstrip_eq. destruct (lstrip_suffix (rev s)) as (hd & E & H).
  exists (rev hd). split.
  - rewrite <- rev_app_distr, <- E. now rewrite rev_involutive.
  - rewrite forallb_forall in *. intros x Hx. apply H. now apply in_rev.
Qed.

Lemma lstrip_idem (s : str) : lstrip (lstrip s) = lstrip s.
Proof. apply lstrip_fixed, lstrip_starts_clean. Qed.

Lemma rstrip_idem (s : str) : rstrip (rstrip s) = rstrip s.
Proof. rewrite !rstrip_eq. now rewrite rev_involutive, lstrip_idem. Qed.

Lemma starts_clean_prefix (p tl : str) : starts_clean (p ++ tl) -> starts_clean p.
Proof. destruct p; simpl; trivial. Qed.

Lemma rstrip_starts_clean (s : str) : starts_clean s -> starts_clean (rstrip s).
Proof.
  intros H. destruct (rstrip_prefix s) as (tl & E & _).
  rewrite E in H. now apply starts_clean_prefix in H.
Qed.

Lemma strip_idem (s : str) : strip (strip s) = strip s.
Proof.
  unfold strip.
  rewrite (lstrip_fixed (rstrip (lstrip s))).
  - apply rstrip_idem.
  - apply rstrip_starts_clean, lstrip_starts_clean.
Qed.

Lemma lstrip_length (s : str) : (List.length (lstrip s) <= List.length s)%nat.
Proof.
  induction s as [|c s IH]; simpl; trivial.
  destruct (is_space c); simpl; lia.
Qed.

Lemma strip_length (s : str) : (List.length (strip s) <= List.length s)%nat.
Proof.
  unfold strip. rewrite !rstrip_eq. rewrite length_rev.
  pose proof (lstrip_length (rev (lstrip s))) as H1. rewrite length_rev in H1.
  pose proof (lstrip_length s). lia.
Qed.

Lemma lstrip_blank (s : str) : blank (lstrip s) = blank s.
Proof.
  unfold blank. induction s as [|c s IH]; simpl; trivial.
  destruct (is_space c) eqn:E; simpl; trivial. now rewrite E.
Qed.

Lemma blank_rev (s : str) : blank (rev s) = blank s.
Proof.
  unfold blank. induction s as [|c s IH]; simpl; trivial.
  rewrite forallb_app, IH. simpl. rewrite andb_true_r. apply andb_comm.
Qed.

Lemma strip_blank (s : str) : blank (strip s) = blank s.
Proof.
  unfold strip. rewrite !rstrip_eq. now rewrite blank_rev, lstrip_blank, blank_rev, lstrip_blank.
Qed.

Lemma lstrip_nil_blank (s : str) : lstrip s = [] -> blank s = true.
Proof.
  unfold blank. induction s as [|c s IH]; simpl; trivial.
  destruct (is_space c); [exact IH | discriminate].
Qed.

Lemma blank_lstrip_nil (s : str) : blank s = true -> lstrip s = [].
Proof.
  unfold blank. induction s as [|c s IH]; simpl; trivial.
  destruct (is_space c); simpl; [exact IH | discriminate].
Qed.

(** [if s.strip():] holds exactly for the strings that are not blank. *)
Lemma truthy_strip (s : str) : truthy (strip s) = negb (blank s).
Proof.
  destruct (blank s) eqn:B; simpl.
  - unfold strip. rewrite !rstrip_eq.
    rewrite (blank_lstrip_nil s B). reflexivity.
  - destruct (strip s) as [|c r] eqn:E; trivial.
    rewrite <- strip_blank, E in B. discriminate.
Qed.

(** ** Whitespace: collapsing runs *)

Section Runs.

Variable cls : char -> bool.
Variable repl : char.
Hypothesis repl_in_cls : cls repl = true.

Lemma sub_runs_tidy (b : bool) (s : str) :
  tidy cls repl b (sub_runs cls repl b s) = true.
Proof.
  revert b. induction s as [|c s IH]; intros b; simpl; trivial.
  destruct (cls c) eqn:Ec.
  - destruct b; [apply IH|]. simpl. rewrite repl_in_cls, N.eqb_refl. apply IH.
  - simpl. rewrite Ec. apply IH.
Qed.

Lemma tidy_fixed (b : bool) (s : str) :
  tidy cls repl b s = true -> sub_runs cls repl b s = s.
Proof.
  revert b. induction s as [|c s IH]; intros b; simpl; trivial.
  destruct (cls c) eqn:Ec.
  - intros H. apply andb_prop in H. destruct H as [H H3].
    apply andb_prop in H. destruct H as [H1 H2].
    destruct b; [discriminate|]. apply N.eqb_eq in H2. subst c.
    now rewrite IH.
  - intros H. now rewrite IH.
Qed.

Lemma tidy_weaken (b : bool) (s : str) :
  tidy cls repl b s = true -> tidy cls repl false s = true.
Proof.
  destruct s as [|c s]; simpl; trivial. destruct (cls c); trivial.
  destruct b; simpl; trivial. discriminate.
Qed.

Lemma tidy_tail (b : bool) (c : char) (s : str) :
  tidy cls repl b (c :: s) = true -> tidy cls repl false s = true.
Proof.
  simpl. destruct (cls c).
  - intros H. apply andb_prop in H. destruct H as [_ H]. now apply tidy_weaken in H.
  - trivial.
Qed.

Lemma tidy_prefix (b : bool) (p tl : str) :
  tidy cls repl b (p ++ tl) = true -> tidy cls repl b p = true.
Proof.
  revert b. induction p as [|c p IH]; intros b; simpl; trivial.
  destruct (cls c).
  - intros H. apply andb_prop in H. destruct H as [H1 H2].
    rewrite H1. simpl. now apply IH.
  - apply IH.
Qed.

Lemma tidy_lstrip (s : str) :
  tidy cls repl false s = true -> tidy cls repl false (lstrip s) = true.
Proof.
  induction s as [|c s IH]; trivial. intros H.
  simpl lstrip. destruct (is_space c); trivial.
  apply IH. now apply tidy_tail in H.
Qed.

Lemma tidy_strip (s : str) :
  tidy cls repl false s = true -> tidy cls repl false (strip s) = true.
Proof.
  intros H. unfold strip. apply tidy_lstrip in H.
  destruct (rstrip_prefix (lstrip s)) as (tl & E & _).
  rewrite E in H. now apply tidy_prefix in H.
Qed.

Lemma sub_runs_length (b : bool) (s : str) :
  (List.length (sub_runs cls repl b s) <= List.length s)%nat.
Proof.
  revert b. induction s as [|c s IH]; intros b; simpl; trivial.
  destruct (cls c).
  - destruct b; simpl; [specialize (IH true); lia | specialize (IH true); lia].
  - simpl. specialize (IH false). lia.
Qed.

(** Collapsing runs of whitespace keeps a string blank or not blank. *)
Lemma sub_runs_blank (b : bool) (s : str) :
  (forall c, cls c = true -> is_space c = true) ->
  blank (sub_runs cls repl b s) = blank s.
Proof.
  intros Hsp. unfold blank. revert b.
  induction s as [|c s IH]; intros b; simpl; trivial.
  destruct (cls c) eqn:Ec.
  - rewrite (Hsp c Ec). simpl. destruct b; simpl; [apply IH|].
    rewrite (Hsp repl repl_in_cls). apply IH.
  - simpl. now rewrite IH.
Qed.

(** Collapsing the runs of another class [cls2] keeps a string tidy. *)
Lemma tidy_sub_runs_other (cls2 : char -> bool) (repl2 : char) (s : str) :
  (forall c, cls2 c = true -> cls c = false) ->
  cls repl2 = false ->
  (forall b, tidy cls repl b s = true ->
             tidy cls repl b (sub_runs cls2 repl2 false s) = true)
  /\ (tidy cls repl false s = true ->
      tidy cls repl false (sub_runs cls2 repl2 true s) = true).
Proof.
  intros Hdisj Hr2. induction s as [|c s [IH1 IH2]]; simpl; [now split|].
  destruct (cls2 c) eqn:E2.
  - rewrite (Hdisj c E2). split.
    + intros b H. simpl. rewrite Hr2. now apply IH2.
    + intros H. now apply IH2.
  - split.
    + intros b H. simpl. destruct (cls c).
      * apply andb_prop in H. destruct H as [H1 H3]. rewrite H1. simpl. now apply IH1.
      * now apply IH1.
    + intros H. simpl. destruct (cls c).
      * apply andb_prop in H. destruct H as [H1 H3]. rewrite H1. simpl. now apply IH1.
      * now apply IH1.
Qed.

End Runs.

(** ** Text normalizer *)

Lemma blank_or_tab_is_space (c : char) : is_blank_or_tab c = true -> is_space c = true.
Proof.
  unfold is_blank_or_tab. intros H. apply orb_prop in H.
  destruct H as [H|H]; apply N.eqb_eq in H; subst c; reflexivity.
Qed.

Lemma newline_is_space (c : char) : is_newline c = true -> is_space c = true.
Proof. unfold is_newline. intros H. apply N.eqb_eq in H. subst c. reflexivity. Qed.

Lemma newline_not_blank_or_tab (c : char) :
  is_newline c = true -> is_blank_or_tab c = false.
Proof. unfold is_newline. intros H. apply N.eqb_eq in H. subst c. reflexivity. Qed.

Lemma clean_chunk_tidy_blanks (t : str) :
  tidy is_blank_or_tab 32%N false (clean_chunk t) = true.
Proof.
  unfold clean_chunk, re_sub_runs. apply tidy_strip.
  apply (tidy_sub_runs_other is_blank_or_tab 32%N is_newline 10%N).
  - apply newline_not_blank_or_tab.
  - reflexivity.
  - now apply sub_runs_tidy.
Qed.

Lemma clean_chunk_tidy_newlines (t : str) :
  tidy is_newline 10%N false (clean_chunk t) = true.
Proof.
  unfold clean_chunk, re_sub_runs. apply tidy_strip. now apply sub_runs_tidy.
Qed.

Lemma clean_chunk_stripped (t : str) : strip (clean_chunk t) = clean_chunk t.
Proof. unfold clean_chunk. apply strip_idem. Qed.

Lemma clean_chunk_length (t : str) : len (clean_chunk t) <= len t.
Proof.
  unfold clean_chunk, re_sub_runs, len.
  pose proof (strip_length (sub_runs is_newline 10%N false
                              (sub_runs is_blank_or_tab 32%N false t))).
  pose proof (sub_runs_length is_newline 10%N false
                              (sub_runs is_blank_or_tab 32%N false t)).
  pose proof (sub_runs_length is_blank_or_tab 32%N false t).
  lia.
Qed.

Lemma clean_chunk_blank (t : str) : blank (clean_chunk t) = blank t.
Proof.
  unfold clean_chunk, re_sub_runs. rewrite strip_blank.
  rewrite (sub_runs_blank is_newline 10%N eq_refl) by apply newline_is_space.
  now rewrite (sub_runs_blank is_blank_or_tab 32%N eq_refl)
    by apply blank_or_tab_is_space.
Qed.

(** C9: for every string [t], the empty one included,
    [clean_chunk(clean_chunk(t)) == clean_chunk(t)], and [clean_chunk(t)] is
    never longer than [t]. *)
Theorem clean_chunk_idempotent_and_shrinking (t : str) :
  clean_chunk (clean_chunk t) = clean_chunk t
  /\ len (clean_chunk t) <= len t.
Proof.
  split; [|apply clean_chunk_length].
  set (x := clean_chunk t).
  unfold clean_chunk at 1. unfold re_sub_runs.
  rewrite (tidy_fixed is_blank_or_tab 32%N false x)
    by apply clean_chunk_tidy_blanks.
  rewrite (tidy_fixed is_newline 10%N false x)
    by apply clean_chunk_tidy_newlines.
  apply clean_chunk_stripped.
Qed.

(** ** Length enforcer: the claims *)

(** C3: for every string [t] and every [max_chars > 0], the pieces returned
    by [enforce_max_length(t, max_chars)], concatenated in order, give back
    [t] exactly, and every piece has at most [max_chars] characters. *)
Theorem enforce_max_length_partition (t : str) (max_chars : Z) :
  0 < max_chars ->
  exists parts,
    enforce_max_length t max_chars = Ok parts
    /\ List.concat parts = t
    /\ Forall (fun p => len p <= max_chars) parts.
Proof.
  intros H. exists (windows t max_chars). split; [|split].
  - now apply enforce_max_length_pos.
  - now apply windows_concat.
  - now apply windows_bounded.
Qed.

Lemma enforce_max_length_partition_witness :
  0 < 3 /\
  exists parts,
    enforce_max_length (lit "abcdefg") 3 = Ok parts
    /\ List.concat parts = lit "abcdefg"
    /\ Forall (fun p => len p <= 3) parts.
Proof.
  split; [lia | apply (enforce_max_length_partition (lit "abcdefg") 3); lia].
Defined.

(** C4, as stated, fails on the empty string: [range(0, 0, max_chars)] is
    empty, so the result has no element at all. *)
Lemma enforce_max_length_empty_counterexample :
  ~ (exists parts,
        enforce_max_length (lit "") MAX_CHARS = Ok parts
        /\ 1 <= len parts
        /\ (len (lit "") <= MAX_CHARS -> parts = [lit ""])).
Proof.
  intros (parts & E & H & _). vm_compute in E. inversion E; subst.
  vm_compute in H. now apply H.
Qed.

(** C4 (amended): for every [max_chars > 0], [enforce_max_length] returns
    the empty sequence for the empty string and, for a non-empty chunk, one
    or more non-empty substrings; a non-empty chunk of at most [max_chars]
    characters comes back as the single element of the result. *)
Theorem enforce_max_length_pieces (chunk : str) (max_chars : Z) :
  0 < max_chars ->
  exists parts,
    enforce_max_length chunk max_chars = Ok parts
    /\ Forall (fun p => p <> []) parts
    /\ (chunk = [] -> parts = [])
    /\ (chunk <> [] -> 1 <= len parts)
    /\ (chunk <> [] -> len chunk <= max_chars -> parts = [chunk]).
Proof.
  intros H. exists (windows chunk max_chars).
  split; [now apply enforce_max_length_pos|].
  split; [now apply windows_nonempty|].
  split; [intros ->; apply windows_empty|].
  split.
  - intros Hne. pose proof (windows_concat chunk max_chars H) as Hc.
    destruct (windows chunk max_chars); [simpl in Hc; congruence|].
    unfold len. simpl. lia.
  - apply windows_single.
Qed.

Lemma enforce_max_length_pieces_witness :
  0 < 5 /\
  exists parts,
    enforce_max_length (lit "abc") 5 = Ok parts
    /\ Forall (fun p => p <> []) parts
    /\ (lit "abc" = [] -> parts = [])
    /\ (lit "abc" <> [] -> 1 <= len parts)
    /\ (lit "abc" <> [] -> len (lit "abc") <= 5 -> parts = [lit "abc"]).
Proof.
  split; [lia | apply (enforce_max_length_pieces (lit "abc") 5); lia].
Defined.

(** ** Fixed-window strategy *)

Lemma fixed_loop_exit (fuel : nat) (text : str) (size overlap start : Z)
      (chunks : list str) :
  len text <= start ->
  fixed_loop fuel text size overlap start chunks = Some chunks.
Proof.
  intros H. apply Z.ltb_ge in H. destruct fuel; simpl; now rewrite H.
Qed.

Lemma fixed_loop_iter (fuel : nat) (text : str) (size overlap start : Z)
      (chunks : list str) :
  start < len text ->
  fixed_loop (S fuel) text size overlap start chunks
  = fixed_loop fuel text size overlap (start + (size - overlap))
      (if truthy (strip (slice text start (start + size)))
       then chunks ++ [slice text start (start + size)] else chunks).
Proof. intros H. apply Z.ltb_lt in H. simpl. now rewrite H. Qed.

Lemma fixed_loop_spec (fuel : nat) (text : str) (size overlap start : Z)
      (chunks : list str) :
  overlap < size -> len text - start <= Z.of_nat fuel ->
  fixed_loop fuel text size overlap start chunks
  = Some (chunks ++
          List.filter (fun c => truthy (strip c))
            (List.map (fun i => slice text i (i + size))
                      (range_pos start (len text) (size - overlap)))).
Proof.
  intros Hstep. revert start chunks.
  induction fuel as [|fuel IH]; intros start chunks Hfuel.
  - rewrite fixed_loop_exit by lia. rewrite range_pos_done by lia.
    simpl. now rewrite app_nil_r.
  - destruct (Z.le_gt_cases (len text) start) as [Hge|Hlt].
    + rewrite fixed_loop_exit by lia. rewrite range_pos_done by lia.
      simpl. now rewrite app_nil_r.
    + rewrite fixed_loop_iter by lia. rewrite IH by lia.
      rewrite (range_pos_step start) by lia. simpl.
      destruct (truthy (strip (slice text start (start + size)))); trivial.
      now rewrite <- app_assoc.
Qed.

(** With [overlap >= size] the cursor never moves forward: on a non-empty
    text the loop has not exited after any number of iterations. *)
Lemma fixed_loop_stuck (fuel : nat) (text : str) (size overlap start : Z)
      (chunks : list str) :
  size <= overlap -> text <> [] -> start <= 0 ->
  fixed_loop fuel text size overlap start chunks = None.
Proof.
  intros Hstep Hne. revert start chunks.
  assert (Hlen : 0 < len text)
    by (destruct text; [congruence | unfold len; simpl; lia]).
  induction fuel as [|fuel IH]; intros start chunks Hs.
  - simpl. destruct (start <? len text) eqn:E; trivial.
    apply Z.ltb_ge in E. lia.
  - rewrite fixed_loop_iter by lia. apply IH. lia.
Qed.

Lemma split_text_fixed_default_total (text : str) :
  split_text_fixed text 500 50 = Some (split_text_fixed_default text).
Proof.
  unfold split_text_fixed_default, split_text_fixed.
  rewrite fixed_loop_spec; trivial; unfold len; lia.
Qed.

Lemma split_text_fixed_default_spec (text : str) :
  split_text_fixed_default text
  = List.filter (fun c => truthy (strip c))
      (List.map (fun i => slice text i (i + 500))
                (range_pos 0 (len text) 450)).
Proof.
  unfold split_text_fixed_default, split_text_fixed.
  rewrite fixed_loop_spec; trivial; unfold len; lia.
Qed.

(** C5: under the precondition [0 <= overlap < size], [split_text_fixed]
    terminates (any number of iterations from [len(text)] on is enough, and
    the result does not depend on it).  With [step = size - overlap], the
    windows are [text[i*step : i*step+size]] for [i = 0, 1, ...] as long as
    [i*step < len(text)]; the output lists, in this order, the windows whose
    stripped content is not empty: a window that is left out still moves
    the cursor by [step]. *)
Theorem split_text_fixed_windows (text : str) (size overlap : Z) :
  0 <= overlap < size ->
  exists n : nat,
    (forall i : nat, (i < n)%nat <-> Z.of_nat i * (size - overlap) < len text)
    /\ (forall fuel : nat,
          (List.length text <= fuel)%nat ->
          fixed_loop fuel text size overlap 0 [] =
          Some (List.filter (fun c => truthy (strip c))
                  (List.map (fun i : nat =>
                               slice text (Z.of_nat i * (size - overlap))
                                     (Z.of_nat i * (size - overlap) + size))
                            (seq 0 n))))
    /\ split_text_fixed text size overlap =
       Some (List.filter (fun c => truthy (strip c))
               (List.map (fun i : nat =>
                            slice text (Z.of_nat i * (size - overlap))
                                  (Z.of_nat i * (size - overlap) + size))
                         (seq 0 n))).
Proof.
  intros [Ho Hs]. set (step := size - overlap).
  assert (Hstep : 0 < step) by (unfold step; lia).
  exists (range_len 0 (len text) step).
  assert (Hwin :
    List.map (fun i => slice text i (i + size)) (range_pos 0 (len text) step)
    = List.map (fun i : nat => slice text (Z.of_nat i * step) (Z.of_nat i * step + size))
               (seq 0 (range_len 0 (len text) step))).
  { unfold range_pos. rewrite map_map. apply map_ext. intros k. reflexivity. }
  split; [|split].
  - intros i. split.
    + intros Hi.
      assert (Hin : In (0 + Z.of_nat i * step) (range_pos 0 (len text) step)).
      { unfold range_pos. apply in_map_iff. exists i.
        split; [reflexivity | apply in_seq; lia]. }
      apply range_pos_spec in Hin; lia.
    + intros Hi.
      pose proof (range_len_bound (len text) step Hstep (len_nonneg text)). nia.
  - intros fuel Hfuel. rewrite <- Hwin.
    rewrite fixed_loop_spec by (unfold len; lia). reflexivity.
  - unfold split_text_fixed. rewrite <- Hwin.
    rewrite fixed_loop_spec by (unfold len; lia). reflexivity.
Qed.

Lemma split_text_fixed_windows_witness :
  0 <= 1 < 3 /\
  exists n : nat,
    (forall i : nat, (i < n)%nat <-> Z.of_nat i * (3 - 1) < len (lit "ab   cd"))
    /\ (forall fuel : nat,
          (List.length (lit "ab   cd") <= fuel)%nat ->
          fixed_loop fuel (lit "ab   cd") 3 1 0 [] =
          Some (List.filter (fun c => truthy (strip c))
                  (List.map (fun i : nat =>
                               slice (lit "ab   cd") (Z.of_nat i * (3 - 1))
                                     (Z.of_nat i * (3 - 1) + 3))
                            (seq 0 n))))
    /\ split_text_fixed (lit "ab   cd") 3 1 =
       Some (List.filter (fun c => truthy (strip c))
               (List.map (fun i : nat =>
                            slice (lit "ab   cd") (Z.of_nat i * (3 - 1))
                                  (Z.of_nat i * (3 - 1) + 3))
                         (seq 0 n))).
Proof.
  split; [lia | apply (split_text_fixed_windows (lit "ab   cd") 3 1); lia].
Defined.

Example split_text_fixed_skips_blank_window :
  split_text_fixed (lit "ab   cd") 3 1 = Some [lit "ab "; lit " cd"; lit "d"].
Proof. reflexivity. Qed.

(** ** The storing loop *)

Lemma loop_event_mono (fn strat : str) (subs subs' : list str) (ev : event) :
  incl subs subs' -> loop_event fn strat subs ev -> loop_event fn strat subs' ev.
Proof.
  intros Hi. destruct ev; simpl; trivial.
  - apply Hi.
  - intros (H1 & H2 & H3). auto.
Qed.

Lemma loop_event_not_pre (fn strat : str) (subs : list str) (ev : event) :
  loop_event fn strat subs ev -> ev <> EvConnect None /\ ev <> EvClose.
Proof. destruct ev; simpl; try contradiction; split; discriminate. Qed.

Lemma pre_event_ok (ev : event) : pre_event ev -> failed_call ev = None.
Proof. destruct ev; simpl; trivial; contradiction. Qed.

Lemma bind_run {A B} (m : M A) (k : A -> M B) (s : state) :
  bind m k s
  = match m s with
    | (Ok a, s') => k a s'
    | (Raise e, s') => (Raise e, s')
    end.
Proof. reflexivity. Qed.

Lemma for_each_app {A B} (xs ys : list A) (acc : B) (body : B -> A -> M B)
      (s : state) :
  for_each (xs ++ ys) acc body s
  = (acc' <- for_each xs acc body ;; for_each ys acc' body) s.
Proof.
  revert acc s. induction xs as [|x xs IH]; intros acc s; cbn [for_each app].
  - reflexivity.
  - rewrite !bind_run. destruct (body acc x s) as [[a|e] s1].
    + rewrite IH. now rewrite bind_run.
    + reflexivity.
Qed.

Lemma print_run (w : world) (m : message) (s : state) :
  print w m s
  = match print_error w m with
    | None =>
        (Ok tt, mkState (visible s) (pending s) (conn s) (embed_calls s)
                        (insert_calls s) (trace s ++ [EvPrint m]))
    | Some e =>
        (Raise e, mkState (visible s) (pending s) (conn s) (embed_calls s)
                          (insert_calls s) (trace s ++ [EvPrintFailed m e]))
    end.
Proof. unfold print. destruct (print_error w m); reflexivity. Qed.

Section Loop.

Variable w : world.
Variables filename strategy : str.

(** The nested loops visit the sub-chunks of all chunks in sequence. *)
Lemma for_each_process_chunk (chunks : list str) (n0 : Z) (s : state) :
  for_each chunks n0 (process_chunk w filename strategy) s
  = for_each (safe_chunks_of chunks) n0
             (process_safe_chunk w filename strategy) s.
Proof.
  revert n0 s. induction chunks as [|c chunks IH]; intros n0 s; [reflexivity|].
  unfold safe_chunks_of. cbn [flat_map for_each]. rewrite for_each_app.
  rewrite !bind_run. unfold process_chunk at 1. rewrite bind_run.
  unfold lift. rewrite enforce_max_length_pos by reflexivity.
  destruct (for_each (windows c MAX_CHARS) n0 _ s) as [[n|e] s1];
    [apply IH | reflexivity].
Qed.

Lemma process_safe_chunk_spec (n : Z) (t : str) (s : state) (r : result Z)
      (s' : state) :
  process_safe_chunk w filename strategy n t s = (r, s') ->
  visible s' = visible s /\ conn s' = conn s
  /\ ((exists emb,
        r = Ok (n + 1)
        /\ pending s' = pending s ++ [mkRow t emb filename strategy]
        /\ trace s' = trace s ++
             [EvEmbed t (Ok emb);
              EvInsert (mkRow t emb filename strategy) None;
              EvPrint (MsgProcessedChunk (n + 1))])
      \/ (exists e evs0 ev rows,
            r = Raise e /\ pending s' = pending s ++ rows
            /\ Forall (fun x => In (row_chunk_text x) [t]
                                /\ row_filename x = filename
                                /\ row_strategy_split x = strategy) rows
            /\ trace s' = trace s ++ evs0 ++ [ev]
            /\ Forall (fun x => failed_event x = None) evs0
            /\ Forall (loop_event filename strategy [t]) (evs0 ++ [ev])
            /\ failed_event ev = Some e)).
Proof.
  unfold process_safe_chunk, bind, generate_embedding, insert_to_db, print.
  destruct (embed_content w (embed_calls s) t) as [emb|e] eqn:Ee; simpl.
  - destruct (execute_error w (insert_calls s) (mkRow t emb filename strategy))
      as [e|] eqn:Ex; simpl.
    + intros H; inversion H; subst; clear H; simpl.
      split; [reflexivity|split; [reflexivity|]].
      right. exists e, [EvEmbed t (Ok emb)],
        (EvInsert (mkRow t emb filename strategy) (Some e)), [].
      rewrite <- !app_assoc, app_nil_r. simpl.
      repeat split; trivial; repeat constructor; simpl; auto.
    + destruct (print_error w (MsgProcessedChunk (n + 1))) as [e|] eqn:Ep;
        unfold bind, log, raise, ret; simpl;
        intros H; inversion H; subst; clear H; simpl;
        (split; [reflexivity|split; [reflexivity|]]).
      * right. exists e,
          [EvEmbed t (Ok emb); EvInsert (mkRow t emb filename strategy) None],
          (EvPrintFailed (MsgProcessedChunk (n + 1)) e),
          [mkRow t emb filename strategy].
        rewrite <- !app_assoc. simpl.
        repeat split; trivial; repeat constructor; simpl; auto.
      * left. exists emb. rewrite <- !app_assoc. simpl. auto.
  - intros H; inversion H; subst; clear H; simpl.
    split; [reflexivity|split; [reflexivity|]].
    right. exists e, [], (EvEmbed t (Raise e)), []. rewrite app_nil_r. simpl.
    repeat split; trivial; repeat constructor; simpl; auto.
Qed.

Lemma flat_loop_spec (subs : list str) (n0 : Z) (s0 : state)
      (lr : result Z) (s1 : state) :
  for_each subs n0 (process_safe_chunk w filename strategy) s0 = (lr, s1) ->
  loop_post filename strategy subs n0 s0 lr s1.
Proof.
  revert n0 s0. induction subs as [|t subs IH]; intros n0 s0; cbn [for_each].
  - unfold ret. intros H; inversion H; subst; clear H.
    exists [], []. rewrite !app_nil_r. unfold len. simpl.
    repeat split; trivial; try constructor. lia.
  - rewrite bind_run.
    destruct (process_safe_chunk w filename strategy n0 t s0) as [r1 sa] eqn:E1.
    apply process_safe_chunk_spec in E1.
    destruct E1 as (Hv & Hc & [(emb & -> & Hp & Ht)
                              | (e & evs0 & ev & rows & -> & Hp & Hr & Ht & Hok
                                 & Hle & Hf)]).
    + intros H. apply IH in H.
      destruct H as (rows & evs & Hv' & Hc' & Hp' & Ht' & Hle' & Hrows & Hres).
      exists (mkRow t emb filename strategy :: rows),
        ([EvEmbed t (Ok emb); EvInsert (mkRow t emb filename strategy) None;
          EvPrint (MsgProcessedChunk (n0 + 1))] ++ evs).
      split; [congruence|]. split; [congruence|].
      split; [rewrite Hp', Hp, <- app_assoc; reflexivity|].
      split; [rewrite Ht', Ht, <- app_assoc; reflexivity|].
      split.
      { apply Forall_app. split.
        - repeat constructor; simpl; auto.
        - eapply Forall_impl; [|exact Hle'].
          intros a. apply loop_event_mono. apply incl_tl, incl_refl. }
      split.
      { constructor; [simpl; auto|].
        eapply Forall_impl; [|exact Hrows]. simpl. intros a (H1 & H2 & H3). auto. }
      destruct lr as [n|e].
      * destruct Hres as (Hn & Hm & Hok). split; [|split].
        -- unfold len in *. simpl List.length. lia.
        -- simpl. now rewrite Hm.
        -- apply Forall_app. split; [repeat constructor|exact Hok].
      * destruct Hres as (evs0 & ev & -> & Hok & Hf).
        exists ([EvEmbed t (Ok emb); EvInsert (mkRow t emb filename strategy) None;
                 EvPrint (MsgProcessedChunk (n0 + 1))] ++ evs0), ev.
        split; [now rewrite <- app_assoc|]. split; trivial.
        apply Forall_app. split; [repeat constructor|exact Hok].
    + intros H; inversion H; subst; clear H.
      exists rows, (evs0 ++ [ev]).
      split; [congruence|]. split; [congruence|]. split; [congruence|].
      split; [exact Ht|]. split.
      { eapply Forall_impl; [|exact Hle]. intros a. apply loop_event_mono.
        intros x [<-|[]]. now left. }
      split.
      { eapply Forall_impl; [|exact Hr]. simpl.
        intros a ([<-|[]] & H2 & H3). auto. }
      exists evs0, ev. auto.
Qed.

End Loop.

(** ** The transaction *)

Section Transaction.

Variable w : world.

Lemma abort_tail_last (e : exn) : exists l, abort_tail w e = l ++ [EvClose].
Proof. unfold abort_tail. eauto. Qed.

Lemma abort_tail_post (e : exn) : Forall post_event (abort_tail w e).
Proof.
  unfold abort_tail. destruct (is_Exception e); repeat constructor.
Qed.

Lemma abort_tail_ok (e : exn) :
  Forall (fun x => failed_event x = None) (abort_tail w e).
Proof.
  unfold abort_tail. destruct (is_Exception e); repeat constructor.
Qed.

(** What the [except] and [finally] clauses do after a failure [e] of
    the [try] block. *)
Lemma abort_run (e : exn) (s' : state) :
  (let '(r, s1) :=
     if is_Exception e then (conn_rollback w ;;; raise e) s'
     else (@Raise value e, s') in
   match conn_close s1 with
   | (Ok _, s2) => (r, s2)
   | (Raise e', s2) => (Raise e', s2)
   end)
  = (Raise (abort_exn w e),
     mkState (visible s') [] Closed (embed_calls s') (insert_calls s')
             (trace s' ++ abort_tail w e)).
Proof.
  unfold abort_exn, abort_tail.
  destruct (is_Exception e).
  - rewrite bind_run. unfold conn_rollback.
    destruct (rollback_error w) as [e2|]; unfold raise, conn_close; simpl;
      rewrite <- app_assoc; reflexivity.
  - unfold conn_close. simpl. reflexivity.
Qed.

(** The [try]/[except]/[finally] statement of [process_document], entered
    with a fresh transaction. *)
Lemma transaction_spec (filename strategy : str) (chunks : list str)
      (s0 : state) (r : result value) (s : state) :
  pending s0 = [] ->
  try_except_finally (store_chunks w filename strategy chunks)
                     (fun e => conn_rollback w ;;; raise e)
                     conn_close s0 = (r, s) ->
  exists evs post,
    trace s = trace s0 ++ evs ++ post
    /\ Forall (loop_event filename strategy (safe_chunks_of chunks)) evs
    /\ conn s = Closed /\ pending s = []
    /\ ((exists rows,
          r = Ok VNone
          /\ commit_error w = None
          /\ Forall (fun x => failed_event x = None) evs
          /\ post = [EvCommit None;
                     EvPrint (MsgStored (len (safe_chunks_of chunks)));
                     EvClose]
          /\ visible s = visible s0 ++ rows
          /\ List.map row_chunk_text rows = safe_chunks_of chunks
          /\ Forall (fun x => row_filename x = filename
                              /\ row_strategy_split x = strategy) rows
          /\ print_error w (MsgStored (len (safe_chunks_of chunks))) = None)
        \/ (exists e,
              Forall (fun x => failed_event x = None) evs
              /\ commit_error w = Some e
              /\ post = EvCommit (Some e) :: abort_tail w e
              /\ visible s = visible s0
              /\ r = Raise (abort_exn w e))
        \/ (exists e evs0 ev,
              evs = evs0 ++ [ev]
              /\ Forall (fun x => failed_event x = None) evs0
              /\ failed_event ev = Some e
              /\ post = abort_tail w e
              /\ visible s = visible s0
              /\ r = Raise (abort_exn w e))
        \/ (exists e rows,
              Forall (fun x => failed_event x = None) evs
              /\ commit_error w = None
              /\ print_error w (MsgStored (len (safe_chunks_of chunks))) = Some e
              /\ post = [EvCommit None;
                         EvPrintFailed
                           (MsgStored (len (safe_chunks_of chunks))) e]
                        ++ abort_tail w e
              /\ visible s = visible s0 ++ rows
              /\ List.map row_chunk_text rows = safe_chunks_of chunks
              /\ Forall (fun x => row_filename x = filename
                                  /\ row_strategy_split x = strategy) rows
              /\ r = Raise (abort_exn w e))).
Proof.
  intros Hp0. unfold try_except_finally, store_chunks.
  rewrite bind_run, for_each_process_chunk.
  destruct (for_each (safe_chunks_of chunks) 0 _ s0) as [lr s1] eqn:E.
  apply flat_loop_spec in E.
  destruct E as (rows & evs & Hv & Hc & Hp & Ht & Hle & Hrows & Hres).
  rewrite Hp0 in Hp. simpl in Hp.
  assert (Hmeta : Forall (fun x => row_filename x = filename
                                   /\ row_strategy_split x = strategy) rows).
  { eapply Forall_impl; [|exact Hrows]. simpl. intros a (_ & H2 & H3). auto. }
  destruct lr as [n|e].
  - destruct Hres as (Hn & Hm & Hok). simpl in Hn. subst n.
    rewrite bind_run. unfold conn_commit.
    destruct (commit_error w) as [e|] eqn:Ec.
    + rewrite abort_run. intros H; inversion H; subst; clear H; simpl.
      exists evs, (EvCommit (Some e) :: abort_tail w e).
      split; [rewrite Ht, <- !app_assoc; reflexivity|].
      split; [exact Hle|]. split; [reflexivity|]. split; [reflexivity|].
      right; left. exists e. auto.
    + rewrite bind_run. unfold print.
      destruct (print_error w (MsgStored (len (safe_chunks_of chunks))))
        as [e|] eqn:Epr.
      * rewrite bind_run. unfold log, raise.
        cbn [visible pending conn embed_calls insert_calls trace].
        rewrite abort_run. intros H; inversion H; subst; clear H; simpl.
        exists evs,
          ([EvCommit None;
            EvPrintFailed (MsgStored (len (safe_chunks_of chunks))) e]
             ++ abort_tail w e).
        split; [rewrite Ht, <- !app_assoc; reflexivity|].
        split; [exact Hle|]. split; [reflexivity|]. split; [reflexivity|].
        right; right; right. exists e, (pending s1). rewrite Hv. auto 10.
      * unfold log, ret, conn_close. simpl.
        intros H; inversion H; subst; clear H; simpl.
        exists evs,
          [EvCommit None; EvPrint (MsgStored (len (safe_chunks_of chunks)));
           EvClose].
        split; [rewrite Ht, <- !app_assoc; reflexivity|].
        split; [exact Hle|]. split; [reflexivity|]. split; [reflexivity|].
        left. exists (pending s1). rewrite Hv. auto 10.
  - destruct Hres as (evs0 & ev & -> & Hok & Hf).
    rewrite abort_run. intros H; inversion H; subst; clear H; simpl.
    exists (evs0 ++ [ev]), (abort_tail w e).
    split; [rewrite Ht, <- !app_assoc; reflexivity|].
    split; [exact Hle|]. split; [reflexivity|]. split; [reflexivity|].
    right; right; left. exists e, evs0, ev. auto 10.
Qed.

(** Extraction only reads: it appends its calls to the trace and its
    outcome does not depend on the state. *)
Lemma extract_text_uniform (file_path : str) :
  exists r evs,
    (evs = [] \/ evs = [EvReadPdf file_path] \/ evs = [EvReadDocx file_path])
    /\ (forall text, r = Ok text -> evs <> [])
    /\ (str_eqb (file_extension w file_path) (lit ".pdf") = false ->
        str_eqb (file_extension w file_path) (lit ".docx") = false ->
        r = Raise (UnsupportedFormat (file_extension w file_path)) /\ evs = [])
    /\ forall s,
        extract_text w file_path s
        = (r, mkState (visible s) (pending s) (conn s) (embed_calls s)
                      (insert_calls s) (trace s ++ evs)).
Proof.
  unfold extract_text.
  destruct (str_eqb (file_extension w file_path) (lit ".pdf")) eqn:E1;
    [|destruct (str_eqb (file_extension w file_path) (lit ".docx")) eqn:E2].
  - unfold extract_text_from_pdf.
    destruct (pdf_pages w file_path) as [pages|e] eqn:Ep.
    + eexists (Ok _), [EvReadPdf file_path].
      split; [auto|]. split; [discriminate|].
      split; [discriminate|]. intros s. rewrite !bind_run. simpl.
      reflexivity.
    + exists (Raise e), [EvReadPdf file_path].
      split; [auto|]. split; [discriminate|].
      split; [discriminate|]. intros s. rewrite !bind_run. simpl.
      reflexivity.
  - unfold extract_text_from_docx.
    destruct (docx_paragraphs w file_path) as [paragraphs|e] eqn:Ep.
    + eexists (Ok _), [EvReadDocx file_path].
      split; [auto|]. split; [discriminate|].
      split; [discriminate|]. intros s. rewrite !bind_run. simpl.
      reflexivity.
    + exists (Raise e), [EvReadDocx file_path].
      split; [auto|]. split; [discriminate|].
      split; [discriminate|]. intros s. rewrite !bind_run. simpl.
      reflexivity.
  - exists (Raise (UnsupportedFormat (file_extension w file_path))), [].
    split; [auto|]. split; [discriminate|]. split; [auto|].
    intros s. unfold raise. rewrite app_nil_r. destruct s; reflexivity.
Qed.

Lemma read_events_pre (file_path : str) (evs : list event) :
  evs = [] \/ evs = [EvReadPdf file_path] \/ evs = [EvReadDocx file_path] ->
  Forall pre_event evs.
Proof. intros [->|[->| ->]]; repeat constructor. Qed.

Ltac solve_pre_events :=
  repeat first [ assumption
               | apply Forall_nil
               | apply Forall_cons; [exact I|]
               | apply Forall_app; split ].

(** A run of [process_document] either stops before a connection exists
    or enters the [try] statement with a fresh transaction. *)
Lemma process_document_reach (file_path strategy : str) (db : list row)
      (r : result value) (s : state) :
  process_document w file_path strategy (init_state db) = (r, s) ->
  ((exists e, r = Raise e)
   /\ visible s = db /\ pending s = [] /\ conn s = NotConnected
   /\ Forall pre_event (trace s))
  \/ (exists text chunks pre,
        path_exists w file_path = true
        /\ (forall s', fst (extract_text w file_path s') = Ok text)
        /\ chunk_text text strategy = Ok chunks
        /\ Forall pre_event pre
        /\ try_except_finally
             (store_chunks w (path_name file_path) strategy
                           (List.map clean_chunk chunks))
             (fun e => conn_rollback w ;;; raise e)
             conn_close
             (mkState db [] Open 0 0 (pre ++ [EvConnect None]))
           = (r, s)).
Proof.
  unfold process_document. rewrite bind_run.
  unfold os_path_exists. rewrite bind_run. unfold log at 1, ret at 1. simpl.
  destruct (path_exists w file_path) eqn:Ex; simpl.
  - rewrite bind_run, print_run.
    destruct (print_error w (MsgProcessing (path_name file_path))) as [e|].
    { intros H; inversion H; subst; clear H; simpl. left.
      repeat split; eauto. solve_pre_events. }
    cbn [visible pending conn embed_calls insert_calls trace].
    rewrite bind_run.
    destruct (extract_text_uniform file_path) as (rt & evs & Hpre & _ & _ & Hx).
    apply read_events_pre in Hpre. rewrite Hx. simpl.
    destruct rt as [text|e].
    + rewrite bind_run. unfold lift.
      destruct (chunk_text text strategy) as [chunks|e] eqn:Ech.
      * rewrite bind_run, print_run.
        destruct (print_error w (MsgCreated (len (List.map clean_chunk chunks))
                                            strategy)) as [e|].
        { intros H; inversion H; subst; clear H; simpl. left.
          repeat split; eauto. solve_pre_events. }
        cbn [visible pending conn embed_calls insert_calls trace].
        rewrite bind_run. unfold get_db_connection. simpl.
        destruct (connect_error w) as [e|] eqn:Ecn.
        -- intros H; inversion H; subst; clear H; simpl. left.
           repeat split; eauto.
           solve_pre_events.
        -- intros H. right. exists text, chunks.
           exists ([EvExists file_path;
                    EvPrint (MsgProcessing (path_name file_path))]
                   ++ evs
                   ++ [EvPrint (MsgCreated (len (List.map clean_chunk chunks))
                                           strategy)]).
           split; [reflexivity|].
           split; [intros s'; now rewrite Hx|].
           split; [exact Ech|]. split; [|exact H].
           solve_pre_events.
      * intros H; inversion H; subst; clear H; simpl. left.
        repeat split; eauto.
        solve_pre_events.
    + intros H; inversion H; subst; clear H; simpl. left.
      repeat split; eauto.
      solve_pre_events.
  - unfold raise. intros H; inversion H; subst; clear H; simpl. left.
    repeat split; eauto. solve_pre_events.
Qed.

End Transaction.

(** ** Chunks and sub-chunks *)

Lemma str_eqb_eq (a b : str) : str_eqb a b = true <-> a = b.
Proof.
  unfold str_eqb. destruct (list_eq_dec N.eq_dec a b); split; congruence.
Qed.

Lemma str_eqb_neq (a b : str) : a <> b -> str_eqb a b = false.
Proof.
  intros H. destruct (str_eqb a b) eqn:E; trivial.
  apply str_eqb_eq in E. contradiction.
Qed.

Lemma filter_truthy_strip (l : list str) :
  Forall (fun c => blank c = false) (List.filter (fun c => truthy (strip c)) l).
Proof.
  apply Forall_forall. intros c Hc. apply filter_In in Hc.
  destruct Hc as [_ Hc]. rewrite truthy_strip in Hc.
  now destruct (blank c).
Qed.

(** Every strategy hands over chunks with visible content only. *)
Lemma chunk_text_nonblank (text strategy : str) (chunks : list str) :
  chunk_text text strategy = Ok chunks ->
  Forall (fun c => blank c = false) chunks.
Proof.
  unfold chunk_text.
  destruct (str_eqb strategy (lit "fixed"));
    [|destruct (str_eqb strategy (lit "sentence"));
      [|destruct (str_eqb strategy (lit "paragraph"))]];
    intros H; inversion H; subst; clear H.
  - rewrite split_text_fixed_default_spec. apply filter_truthy_strip.
  - apply filter_truthy_strip.
  - apply filter_truthy_strip.
Qed.

Lemma chunk_text_unsupported (text strategy : str) :
  strategy <> lit "fixed" -> strategy <> lit "sentence" ->
  strategy <> lit "paragraph" ->
  chunk_text text strategy = Raise (UnsupportedStrategy strategy).
Proof.
  intros H1 H2 H3. unfold chunk_text.
  now rewrite !str_eqb_neq by assumption.
Qed.

Lemma split_text_fixed_default_bounded (text : str) :
  Forall (fun c => len c <= 500) (split_text_fixed_default text).
Proof.
  rewrite split_text_fixed_default_spec. apply Forall_forall. intros c Hc.
  apply filter_In in Hc. destruct Hc as [Hc _].
  apply in_map_iff in Hc. destruct Hc as (i & <- & Hi).
  apply range_pos_spec in Hi; [|lia]. apply slice_length_le; lia.
Qed.

Lemma blank_false_nonempty (c : str) : blank c = false -> c <> [].
Proof. intros H ->. discriminate. Qed.

Lemma strip_fixed_rstrip (c : str) : strip c = c -> rstrip c = c.
Proof.
  intros H. rewrite <- H at 1. unfold strip. rewrite rstrip_idem. exact H.
Qed.

Lemma rstrip_fixed_ends_clean (c : str) : rstrip c = c -> starts_clean (rev c).
Proof.
  rewrite !rstrip_eq. intros H.
  assert (E : lstrip (rev c) = rev c).
  { rewrite <- H at 2. now rewrite rev_involutive. }
  rewrite <- E. apply lstrip_starts_clean.
Qed.

Lemma starts_clean_firstn_blank (n : nat) (s : str) :
  starts_clean s -> s <> [] -> (0 < n)%nat -> blank (firstn n s) = false.
Proof.
  destruct s as [|x s]; [congruence|]. destruct n; [lia|].
  simpl. intros -> _ _. reflexivity.
Qed.

(** A non-empty tail of a stripped string is not blank. *)
Lemma stripped_tail_nonblank (c : str) (i : nat) :
  strip c = c -> (i < List.length c)%nat -> blank (skipn i c) = false.
Proof.
  intros Hs Hi. rewrite <- blank_rev.
  replace (rev (skipn i c)) with (firstn (List.length c - i) (rev c)).
  - apply starts_clean_firstn_blank.
    + now apply rstrip_fixed_ends_clean, strip_fixed_rstrip.
    + intros E. apply (f_equal (@List.length _)) in E.
      rewrite length_rev in E. simpl in E. lia.
    + lia.
  - rewrite firstn_rev. do 2 f_equal. lia.
Qed.

Lemma windows_stored_ok (c t : str) :
  strip c = c -> In t (windows c MAX_CHARS) -> stored_ok t.
Proof.
  intros Hs Hin. unfold windows in Hin. apply in_map_iff in Hin.
  destruct Hin as (i & <- & Hi). apply range_pos_spec in Hi; [|reflexivity].
  split; [apply slice_nonempty; [lia|reflexivity]|].
  split; [apply slice_length_le; [lia|discriminate]|].
  rewrite slice_window by (try lia; discriminate).
  intros Hlt. unfold len in Hlt, Hi. rewrite length_firstn, length_skipn in Hlt.
  rewrite firstn_all2 by (rewrite length_skipn; unfold MAX_CHARS in *; lia).
  apply stripped_tail_nonblank; trivial. lia.
Qed.

Lemma safe_chunks_stored_ok (chunks : list str) (t : str) :
  In t (safe_chunks_of (List.map clean_chunk chunks)) -> stored_ok t.
Proof.
  unfold safe_chunks_of. rewrite in_flat_map. intros (c & Hc & Ht).
  apply in_map_iff in Hc. destruct Hc as (c0 & <- & _).
  eapply windows_stored_ok; [|exact Ht]. apply clean_chunk_stripped.
Qed.

Lemma safe_chunks_single (chunks : list str) :
  Forall (fun c => c <> [] /\ len c <= MAX_CHARS) chunks ->
  safe_chunks_of chunks = chunks.
Proof.
  unfold safe_chunks_of. induction 1 as [|c chunks [Hne Hle] _ IH]; simpl.
  - reflexivity.
  - rewrite IH. now rewrite windows_single.
Qed.

(** ** Runs of [process_document] *)

Section Runs_of_process_document.

Variable w : world.

Lemma process_document_run (file_path strategy : str) (db : list row)
      (r : result value) (s : state) :
  process_document w file_path strategy (init_state db) = (r, s) ->
  ((exists e, r = Raise e)
   /\ visible s = db /\ pending s = [] /\ conn s = NotConnected
   /\ Forall pre_event (trace s))
  \/ (exists text chunks pre evs post,
        let subs := safe_chunks_of (List.map clean_chunk chunks) in
        (forall s', fst (extract_text w file_path s') = Ok text)
        /\ chunk_text text strategy = Ok chunks
        /\ Forall pre_event pre
        /\ trace s = pre ++ [EvConnect None] ++ evs ++ post
        /\ Forall (loop_event (path_name file_path) strategy subs) evs
        /\ Forall post_event post
        /\ conn s = Closed /\ pending s = []
        /\ ((exists rows,
              r = Ok VNone
              /\ commit_error w = None
              /\ Forall (fun x => failed_event x = None) evs
              /\ post = [EvCommit None; EvPrint (MsgStored (len subs)); EvClose]
              /\ visible s = db ++ rows
              /\ List.map row_chunk_text rows = subs
              /\ Forall (fun x => row_filename x = path_name file_path
                                  /\ row_strategy_split x = strategy) rows
              /\ print_error w (MsgStored (len subs)) = None)
            \/ (exists e,
                  Forall (fun x => failed_event x = None) evs
                  /\ commit_error w = Some e
                  /\ post = EvCommit (Some e) :: abort_tail w e
                  /\ visible s = db
                  /\ r = Raise (abort_exn w e))
            \/ (exists e evs0 ev,
                  evs = evs0 ++ [ev]
                  /\ Forall (fun x => failed_event x = None) evs0
                  /\ failed_event ev = Some e
                  /\ post = abort_tail w e
                  /\ visible s = db
                  /\ r = Raise (abort_exn w e))
            \/ (exists e rows,
                  Forall (fun x => failed_event x = None) evs
                  /\ commit_error w = None
                  /\ print_error w (MsgStored (len subs)) = Some e
                  /\ post = [EvCommit None; EvPrintFailed (MsgStored (len subs)) e]
                            ++ abort_tail w e
                  /\ visible s = db ++ rows
                  /\ List.map row_chunk_text rows = subs
                  /\ Forall (fun x => row_filename x = path_name file_path
                                      /\ row_strategy_split x = strategy) rows
                  /\ r = Raise (abort_exn w e)))).
Proof.
  intros H. apply process_document_reach in H.
  destruct H as [H | (text & chunks & pre & _ & Hx & Hch & Hpre & H)]; [now left|].
  right. apply transaction_spec in H; [|reflexivity].
  destruct H as (evs & post & Ht & Hle & Hc & Hp & Hcases).
  exists text, chunks, pre, evs, post. simpl in Ht, Hcases.
  split; [exact Hx|]. split; [exact Hch|]. split; [exact Hpre|].
  split; [rewrite Ht, <- app_assoc; reflexivity|].
  split; [exact Hle|].
  split.
  { destruct Hcases as [(rows & _ & _ & _ & -> & _)
                       |[(e & _ & _ & -> & _)
                        |[(e & evs0 & ev & _ & _ & _ & -> & _)
                         |(e & rows & _ & _ & _ & -> & _)]]].
    - repeat constructor.
    - constructor; [exact I|apply abort_tail_post].
    - apply abort_tail_post.
    - constructor; [exact I|]. constructor; [exact I|]. apply abort_tail_post. }
  split; [exact Hc|]. split; [exact Hp|].
  exact Hcases.
Qed.

End Runs_of_process_document.

(** ** Failures before the transaction *)

Section Early_exits.

Variable w : world.

Lemma process_document_not_found (file_path strategy : str) (db : list row) :
  path_exists w file_path = false ->
  process_document w file_path strategy (init_state db)
  = (Raise (FileNotFoundError file_path),
     mkState db [] NotConnected 0 0 [EvExists file_path]).
Proof.
  intros Hex. unfold process_document. rewrite bind_run.
  unfold os_path_exists. rewrite bind_run. unfold log at 1, ret at 1. simpl.
  rewrite Hex. reflexivity.
Qed.

Lemma process_document_print_fails (file_path strategy : str) (db : list row)
      (e : exn) :
  path_exists w file_path = true ->
  print_error w (MsgProcessing (path_name file_path)) = Some e ->
  process_document w file_path strategy (init_state db)
  = (Raise e,
     mkState db [] NotConnected 0 0
             [EvExists file_path;
              EvPrintFailed (MsgProcessing (path_name file_path)) e]).
Proof.
  intros Hex Hpr. unfold process_document. rewrite bind_run.
  unfold os_path_exists. rewrite bind_run. unfold log at 1, ret at 1. simpl.
  rewrite Hex. simpl. rewrite bind_run, print_run, Hpr. reflexivity.
Qed.

Lemma process_document_stops_early (file_path strategy : str) (db : list row)
      (rt : result str) (evs : list event) (e : exn) :
  path_exists w file_path = true ->
  print_error w (MsgProcessing (path_name file_path)) = None ->
  (forall s, extract_text w file_path s
             = (rt, mkState (visible s) (pending s) (conn s) (embed_calls s)
                            (insert_calls s) (trace s ++ evs))) ->
  rt = Raise e \/ (exists text, rt = Ok text /\ chunk_text text strategy = Raise e) ->
  process_document w file_path strategy (init_state db)
  = (Raise e,
     mkState db [] NotConnected 0 0
             ([EvExists file_path; EvPrint (MsgProcessing (path_name file_path))]
                ++ evs)).
Proof.
  intros Hex Hpr Hx Hcase. unfold process_document. rewrite bind_run.
  unfold os_path_exists. rewrite bind_run. unfold log at 1, ret at 1. simpl.
  rewrite Hex. simpl. rewrite bind_run, print_run, Hpr.
  cbn [visible pending conn embed_calls insert_calls trace].
  rewrite bind_run, Hx. simpl.
  destruct Hcase as [-> | (text & -> & Hch)]; [reflexivity|].
  rewrite bind_run. unfold lift. now rewrite Hch.
Qed.

End Early_exits.

(** C8, as stated, fails: the file name is printed before the extension is
    looked at, and a name that standard output cannot encode makes this
    [print] raise; the run then ends with the error of [print], not with
    the unsupported-format error. *)
Lemma unsupported_format_counterexample :
  ~ (path_exists unprintable_name_world surrogate_name = true ->
     file_extension unprintable_name_world surrogate_name <> lit ".pdf" ->
     file_extension unprintable_name_world surrogate_name <> lit ".docx" ->
     outcome unprintable_name_world surrogate_name (lit "fixed") []
     = Raise (UnsupportedFormat
                (file_extension unprintable_name_world surrogate_name))).
Proof.
  intros H.
  assert (E : outcome unprintable_name_world surrogate_name (lit "fixed") []
              = Raise UnicodeEncodeError) by reflexivity.
  rewrite H in E.
  - discriminate E.
  - reflexivity.
  - vm_compute. discriminate.
  - vm_compute. discriminate.
Qed.

(** C8 (amended): for every existing path whose extension is neither
    [.pdf] nor [.docx], [process_document] fails; the embedding client is
    not invoked, no database connection is opened and the table is
    unchanged.  When the progress line that names the file is printed, the
    failure is the unsupported-format error and the existence test and
    that line are the only calls of the run; when printing it raises, the
    run ends with the error of [print]. *)
Theorem unsupported_format_fails_before_any_call
        (w : world) (file_path strategy : str) (db : list row) :
  path_exists w file_path = true ->
  file_extension w file_path <> lit ".pdf" ->
  file_extension w file_path <> lit ".docx" ->
  (exists e, outcome w file_path strategy db = Raise e)
  /\ (forall t r, ~ In (EvEmbed t r) (trace (final w file_path strategy db)))
  /\ (forall err, ~ In (EvConnect err) (trace (final w file_path strategy db)))
  /\ conn (final w file_path strategy db) = NotConnected
  /\ visible (final w file_path strategy db) = db
  /\ (print_error w (MsgProcessing (path_name file_path)) = None ->
      outcome w file_path strategy db
      = Raise (UnsupportedFormat (file_extension w file_path))
      /\ trace (final w file_path strategy db)
         = [EvExists file_path; EvPrint (MsgProcessing (path_name file_path))])
  /\ (forall e,
        print_error w (MsgProcessing (path_name file_path)) = Some e ->
        outcome w file_path strategy db = Raise e
        /\ trace (final w file_path strategy db)
           = [EvExists file_path;
              EvPrintFailed (MsgProcessing (path_name file_path)) e]).
Proof.
  intros Hex Hpdf Hdocx. unfold outcome, final.
  destruct (print_error w (MsgProcessing (path_name file_path))) as [e|] eqn:Hpr.
  - rewrite (process_document_print_fails w _ _ _ e Hex Hpr). simpl.
    split; [eauto|]. split; [|split; [|split; [|split; [|split]]]]; trivial.
    + intros t r [H|[H|[]]]; discriminate.
    + intros err [H|[H|[]]]; discriminate.
    + discriminate.
    + intros e' H. inversion H; subst. auto.
  - destruct (extract_text_uniform w file_path) as (rt & evs & _ & _ & Hbad & Hx).
    destruct (Hbad (str_eqb_neq _ _ Hpdf) (str_eqb_neq _ _ Hdocx)) as [-> ->].
    rewrite (process_document_stops_early w file_path strategy db _ _ _ Hex Hpr
               Hx (or_introl eq_refl)).
    simpl.
    split; [eauto|]. split; [|split; [|split; [|split; [|split]]]]; trivial.
    + intros t r [H|[H|[]]]; discriminate.
    + intros err [H|[H|[]]]; discriminate.
    + auto.
    + discriminate.
Qed.

Lemma unsupported_format_fails_before_any_call_witness :
  path_exists quiet_world (lit "notes.txt") = true
  /\ file_extension quiet_world (lit "notes.txt") <> lit ".pdf"
  /\ file_extension quiet_world (lit "notes.txt") <> lit ".docx"
  /\ outcome quiet_world (lit "notes.txt") (lit "fixed") []
     = Raise (UnsupportedFormat (file_extension quiet_world (lit "notes.txt")))
  /\ trace (final quiet_world (lit "notes.txt") (lit "fixed") [])
     = [EvExists (lit "notes.txt");
        EvPrint (MsgProcessing (path_name (lit "notes.txt")))].
Proof.
  assert (H1 : path_exists quiet_world (lit "notes.txt") = true) by reflexivity.
  assert (H2 : file_extension quiet_world (lit "notes.txt") <> lit ".pdf")
    by (vm_compute; discriminate).
  assert (H3 : file_extension quiet_world (lit "notes.txt") <> lit ".docx")
    by (vm_compute; discriminate).
  destruct (unsupported_format_fails_before_any_call
              quiet_world (lit "notes.txt") (lit "fixed") [] H1 H2 H3)
    as (_ & _ & _ & _ & _ & Hprinted & _).
  destruct (Hprinted eq_refl) as (Ho & Ht).
  split; [exact H1|]. split; [exact H2|]. split; [exact H3|].
  split; [exact Ho|exact Ht].
Defined.

(** C7, as stated, fails: the strategy name is looked at by [chunk_text],
    after the text has been extracted. *)
Lemma unsupported_strategy_counterexample :
  ~ (outcome quiet_world (lit "a.pdf") (lit "bogus") []
     = Raise (UnsupportedStrategy (lit "bogus"))
     /\ ~ In (EvReadPdf (lit "a.pdf"))
             (trace (final quiet_world (lit "a.pdf") (lit "bogus") []))).
Proof.
  intros [_ H]. apply H. vm_compute. auto.
Qed.

(** C7 (amended): with a strategy name that is not one of [fixed],
    [sentence], [paragraph], every run fails, leaves the table as it was,
    opens no connection and calls no embedding.  In a run that has printed
    the progress line naming the file (the document exists and the line
    could be written) and whose text is extracted, the failure is the
    unsupported-strategy error, raised after the extraction call. *)
Theorem unsupported_strategy_fails
        (w : world) (file_path strategy : str) (db : list row) :
  strategy <> lit "fixed" -> strategy <> lit "sentence" ->
  strategy <> lit "paragraph" ->
  (exists e, outcome w file_path strategy db = Raise e)
  /\ visible (final w file_path strategy db) = db
  /\ conn (final w file_path strategy db) = NotConnected
  /\ (forall err, ~ In (EvConnect err) (trace (final w file_path strategy db)))
  /\ (forall t r, ~ In (EvEmbed t r) (trace (final w file_path strategy db)))
  /\ (forall text,
        In (EvPrint (MsgProcessing (path_name file_path)))
           (trace (final w file_path strategy db)) ->
        (forall s, fst (extract_text w file_path s) = Ok text) ->
        outcome w file_path strategy db = Raise (UnsupportedStrategy strategy)
        /\ (In (EvReadPdf file_path) (trace (final w file_path strategy db))
            \/ In (EvReadDocx file_path) (trace (final w file_path strategy db)))).
Proof.
  intros H1 H2 H3. unfold outcome, final.
  destruct (path_exists w file_path) eqn:Hex;
    [destruct (print_error w (MsgProcessing (path_name file_path)))
       as [ep|] eqn:Hpr|].
  - rewrite (process_document_print_fails w _ _ _ ep Hex Hpr). simpl.
    split; [eauto|]. split; [trivial|]. split; [trivial|].
    split; [|split].
    + intros err [H|[H|[]]]; discriminate.
    + intros t r [H|[H|[]]]; discriminate.
    + intros text [H|[H|[]]]; discriminate.
  - destruct (extract_text_uniform w file_path) as (rt & evs & Hevs & Hok & _ & Hx).
    assert (Hrun : exists e,
      process_document w file_path strategy (init_state db)
      = (Raise e,
         mkState db [] NotConnected 0 0
           ([EvExists file_path; EvPrint (MsgProcessing (path_name file_path))]
              ++ evs))
      /\ forall text, rt = Ok text -> e = UnsupportedStrategy strategy).
    { destruct rt as [text|e].
      - exists (UnsupportedStrategy strategy). split; [|trivial].
        apply (process_document_stops_early w _ _ _ (Ok text)); trivial.
        right. exists text. split; trivial. now apply chunk_text_unsupported.
      - exists e. split; [|discriminate].
        apply (process_document_stops_early w _ _ _ (Raise e)); auto. }
    destruct Hrun as (e & -> & He). simpl.
    split; [eauto|]. split; [trivial|]. split; [trivial|].
    split; [|split].
    + intros err [H|[H|H]]; try discriminate.
      destruct Hevs as [->|[->| ->]]; simpl in H; intuition discriminate.
    + intros t r [H|[H|H]]; try discriminate.
      destruct Hevs as [->|[->| ->]]; simpl in H; intuition discriminate.
    + intros text _ Htext. specialize (Htext (init_state db)).
      rewrite Hx in Htext. simpl in Htext. subst rt.
      split; [now rewrite (He text eq_refl)|].
      specialize (Hok text eq_refl).
      destruct Hevs as [->|[->| ->]]; [congruence| |]; simpl; auto.
  - rewrite process_document_not_found by assumption. simpl.
    split; [eauto|]. split; [trivial|]. split; [trivial|].
    split; [|split].
    + intros err [H|[]]; discriminate.
    + intros t r [H|[]]; discriminate.
    + intros text [H|[]]; discriminate.
Qed.

Lemma unsupported_strategy_fails_witness :
  lit "bogus" <> lit "fixed" /\ lit "bogus" <> lit "sentence"
  /\ lit "bogus" <> lit "paragraph"
  /\ In (EvPrint (MsgProcessing (path_name (lit "a.pdf"))))
        (trace (final quiet_world (lit "a.pdf") (lit "bogus") []))
  /\ outcome quiet_world (lit "a.pdf") (lit "bogus") []
     = Raise (UnsupportedStrategy (lit "bogus"))
  /\ visible (final quiet_world (lit "a.pdf") (lit "bogus") []) = []
  /\ conn (final quiet_world (lit "a.pdf") (lit "bogus") []) = NotConnected.
Proof.
  assert (H1 : lit "bogus" <> lit "fixed") by (vm_compute; discriminate).
  assert (H2 : lit "bogus" <> lit "sentence") by (vm_compute; discriminate).
  assert (H3 : lit "bogus" <> lit "paragraph") by (vm_compute; discriminate).
  assert (Hp : In (EvPrint (MsgProcessing (path_name (lit "a.pdf"))))
                  (trace (final quiet_world (lit "a.pdf") (lit "bogus") [])))
    by (vm_compute; repeat first [left; reflexivity | right]).
  destruct (unsupported_strategy_fails
              quiet_world (lit "a.pdf") (lit "bogus") [] H1 H2 H3)
    as (_ & Hv & Hc & _ & _ & Hlast).
  destruct (Hlast (lit "Hello world." ++ [10%N]) Hp (fun s => eq_refl))
    as (Ho & _).
  split; [exact H1|]. split; [exact H2|]. split; [exact H3|].
  split; [exact Hp|]. split; [exact Ho|]. split; [exact Hv|exact Hc].
Defined.

(** ** Sample runs *)

Example run_quiet :
  process_document quiet_world (lit "a.pdf") (lit "fixed") (init_state []) =
  (Ok VNone,
   mkState [mkRow (lit "Hello world.") [] (lit "a.pdf") (lit "fixed")] [] Closed 1 1
     [EvExists (lit "a.pdf"); EvPrint (MsgProcessing (lit "a.pdf"));
      EvReadPdf (lit "a.pdf"); EvPrint (MsgCreated 1 (lit "fixed"));
      EvConnect None; EvEmbed (lit "Hello world.") (Ok []);
      EvInsert (mkRow (lit "Hello world.") [] (lit "a.pdf") (lit "fixed")) None;
      EvPrint (MsgProcessedChunk 1); EvCommit None; EvPrint (MsgStored 1);
      EvClose]).
Proof. vm_compute. reflexivity. Qed.

Example run_flaky :
  outcome flaky_world (lit "a.pdf") (lit "sentence") [] = Raise (External true 503)
  /\ visible (final flaky_world (lit "a.pdf") (lit "sentence") []) = []
  /\ trace (final flaky_world (lit "a.pdf") (lit "sentence") [])
     = [EvExists (lit "a.pdf"); EvPrint (MsgProcessing (lit "a.pdf"));
        EvReadPdf (lit "a.pdf"); EvPrint (MsgCreated 3 (lit "sentence"));
        EvConnect None; EvEmbed (lit "A.") (Ok []);
        EvInsert (mkRow (lit "A.") [] (lit "a.pdf") (lit "sentence")) None;
        EvPrint (MsgProcessedChunk 1);
        EvEmbed (lit "B!") (Raise (External true 503));
        EvRollback None; EvClose].
Proof. vm_compute. auto. Qed.

Example sentence_example :
  split_text_sentence (lit "A. B! C?") = [lit "A."; lit "B!"; lit "C?"].
Proof. reflexivity. Qed.

Example paragraph_example :
  split_text_paragraph (lit "a" ++ [10; 10]%N ++ lit "b" ++ [10]%N)
  = [lit "a"; lit "b"].
Proof. reflexivity. Qed.

Example suffix_examples :
  path_suffix (lit "docs/Report.PDF") = lit ".PDF"
  /\ path_suffix (lit ".pdf") = lit ""
  /\ path_suffix (lit "a.docx/") = lit ".docx"
  /\ file_extension quiet_world (lit "docs/Report.PDF") = lit ".pdf".
Proof. vm_compute. auto. Qed.

(** ** Claims on the transaction *)

Lemma ok_events_no_failure (l : list event) (ev : event) (e : exn) :
  Forall (fun x => failed_call x = None) l ->
  In ev l -> failed_call ev = Some e -> False.
Proof.
  intros H Hin Hf. rewrite Forall_forall in H. rewrite (H ev Hin) in Hf.
  discriminate.
Qed.

Lemma failed_call_event (ev : event) (e : exn) :
  failed_call ev = Some e -> failed_event ev = Some e.
Proof. destruct ev; simpl; trivial; discriminate. Qed.

Lemma failed_event_none (ev : event) :
  failed_event ev = None -> failed_call ev = None.
Proof. destruct ev; simpl; trivial; discriminate. Qed.

Lemma quiet_events_ok (l : list event) :
  Forall (fun x => failed_event x = None) l ->
  Forall (fun x => failed_call x = None) l.
Proof. apply Forall_impl, failed_event_none. Qed.

Lemma post_event_ok (ev : event) : post_event ev -> failed_call ev = None.
Proof. destruct ev; simpl; trivial; contradiction. Qed.

Lemma pre_events_ok (l : list event) :
  Forall pre_event l -> Forall (fun x => failed_call x = None) l.
Proof. apply Forall_impl, pre_event_ok. Qed.

Lemma post_events_ok (l : list event) :
  Forall post_event l -> Forall (fun x => failed_call x = None) l.
Proof. apply Forall_impl, post_event_ok. Qed.

Lemma abort_exn_same (w : world) (e : exn) :
  is_Exception e = false \/ rollback_error w = None -> abort_exn w e = e.
Proof.
  unfold abort_exn. intros [-> | ->]; trivial. now destruct (is_Exception e).
Qed.

(** C1, as stated, fails: when the embedding call has failed and
    [conn.rollback()] fails in its turn, what reaches the caller is the
    exception of the rollback, not the failure of the embedding call. *)
Lemma reraise_counterexample :
  ~ (In (EvEmbed (lit "B!") (Raise (External true 503)))
        (trace (final broken_rollback_world (lit "a.pdf") (lit "sentence") [])) ->
     failed_call (EvEmbed (lit "B!") (Raise (External true 503)))
     = Some (External true 503) ->
     outcome broken_rollback_world (lit "a.pdf") (lit "sentence") []
     = Raise (External true 503)).
Proof.
  intros H.
  assert (E : outcome broken_rollback_world (lit "a.pdf") (lit "sentence") []
              = Raise (External true 57)) by reflexivity.
  rewrite H in E.
  - discriminate E.
  - vm_compute. repeat first [left; reflexivity | right].
  - reflexivity.
Qed.

(** C1 (amended): on every exit path the run leaves no open connection and
    no pending row, the table shows either what it showed before or a
    committed transaction, and a connection that was opened has been
    closed by the last call.  If an embedding call or a storage write of the
    loop raised [e], the run raises, the table shows what it showed before
    the run, and nothing follows the failed call but the rollback and the
    close.  The rollback is called when [e] derives from [Exception]; a
    failure that does not is undone by the close alone.  What reaches the
    caller is [e] itself, unless the rollback call raises in its turn: then
    it is the exception of the rollback. *)
Theorem failure_rolls_back_and_releases
        (w : world) (file_path strategy : str) (db : list row) :
  (conn (final w file_path strategy db) <> Open
   /\ pending (final w file_path strategy db) = []
   /\ (visible (final w file_path strategy db) = db
       \/ In (EvCommit None) (trace (final w file_path strategy db)))
   /\ (In (EvConnect None) (trace (final w file_path strategy db)) ->
       conn (final w file_path strategy db) = Closed
       /\ exists l, trace (final w file_path strategy db) = l ++ [EvClose]))
  /\ forall ev e,
      In ev (trace (final w file_path strategy db)) ->
      failed_call ev = Some e ->
      (exists e',
          outcome w file_path strategy db = Raise e'
          /\ (is_Exception e = false \/ rollback_error w = None -> e' = e)
          /\ (forall e2, is_Exception e = true ->
                         rollback_error w = Some e2 -> e' = e2))
      /\ visible (final w file_path strategy db) = db
      /\ pending (final w file_path strategy db) = []
      /\ conn (final w file_path strategy db) = Closed
      /\ exists before,
          trace (final w file_path strategy db)
          = before ++ [ev]
              ++ (if is_Exception e then [EvRollback (rollback_error w)] else [])
              ++ [EvClose].
Proof.
  unfold outcome, final.
  destruct (process_document w file_path strategy (init_state db)) as [r s] eqn:E.
  simpl fst. simpl snd. apply process_document_run in E.
  destruct E as [(_ & Hv & Hp & Hc & Hpre)
                |(text & chunks & pre & evs & post & _ & _ & Hpre & Ht & Hle
                  & Hpost & Hc & Hp & Hcases)].
  - split.
    + rewrite Hc, Hp. split; [discriminate|]. split; [reflexivity|].
      split; [now left|].
      intros Hin. rewrite Forall_forall in Hpre. destruct (Hpre _ Hin).
    + intros ev e Hin Hf. exfalso.
      exact (ok_events_no_failure _ _ _ (pre_events_ok _ Hpre) Hin Hf).
  - split.
    + rewrite Hc, Hp. split; [discriminate|]. split; [reflexivity|]. split.
      * destruct Hcases as [(rows & _ & _ & _ & Hpo & _)
                           |[(e & _ & _ & _ & Hvis & _)
                            |[(e & evs0 & ev & _ & _ & _ & _ & Hvis & _)
                             |(e & rows & _ & _ & _ & Hpo & _)]]]; auto;
          right; rewrite Ht, Hpo; apply in_or_app; right; simpl;
          right; apply in_or_app; right; simpl; auto.
      * intros _. split; [reflexivity|]. rewrite Ht.
        destruct Hcases as [(rows & _ & _ & _ & -> & _)
                           |[(e & _ & _ & -> & _)
                            |[(e & evs0 & ev & _ & _ & _ & -> & _)
                             |(e & rows & _ & _ & _ & -> & _)]]].
        -- exists (pre ++ [EvConnect None] ++ evs
                       ++ [EvCommit None;
                           EvPrint (MsgStored
                             (len (safe_chunks_of (List.map clean_chunk chunks))))]).
           rewrite <- !app_assoc. reflexivity.
        -- destruct (abort_tail_last w e) as (l & ->).
           exists (pre ++ [EvConnect None] ++ evs ++ EvCommit (Some e) :: l).
           rewrite <- !app_assoc. reflexivity.
        -- destruct (abort_tail_last w e) as (l & ->).
           exists (pre ++ [EvConnect None] ++ evs ++ l).
           rewrite <- !app_assoc. reflexivity.
        -- destruct (abort_tail_last w e) as (l & ->).
           exists (pre ++ [EvConnect None] ++ evs
                       ++ [EvCommit None;
                           EvPrintFailed
                             (MsgStored
                                (len (safe_chunks_of (List.map clean_chunk chunks))))
                             e] ++ l).
           rewrite <- !app_assoc. reflexivity.
    + intros ev e Hin Hf. rewrite Ht in Hin.
      apply in_app_or in Hin. destruct Hin as [Hin|Hin];
        [exfalso; exact (ok_events_no_failure _ _ _ (pre_events_ok _ Hpre) Hin Hf)|].
      apply in_app_or in Hin. destruct Hin as [[<-|[]]|Hin]; [discriminate|].
      apply in_app_or in Hin. destruct Hin as [Hin|Hin];
        [|exfalso; exact (ok_events_no_failure _ _ _ (post_events_ok _ Hpost) Hin Hf)].
      destruct Hcases as [(rows & _ & _ & Hok & _)
                         |[(e1 & Hok & _)
                          |[(e1 & evs0 & ev1 & -> & Hok & Hf1 & -> & Hvis & ->)
                           |(e1 & rows & Hok & _)]]];
        try (exfalso;
             exact (ok_events_no_failure _ _ _ (quiet_events_ok _ Hok) Hin Hf)).
      apply in_app_or in Hin. destruct Hin as [Hin|[<-|[]]];
        [exfalso;
         exact (ok_events_no_failure _ _ _ (quiet_events_ok _ Hok) Hin Hf)|].
      apply failed_call_event in Hf.
      assert (e1 = e) by congruence. subst e1.
      split.
      { exists (abort_exn w e). split; [reflexivity|].
        split; [apply abort_exn_same|].
        intros e2 He He2. unfold abort_exn. now rewrite He, He2. }
      split; [exact Hvis|]. split; [exact Hp|]. split; [exact Hc|].
      exists (pre ++ [EvConnect None] ++ evs0). rewrite Ht.
      unfold abort_tail. rewrite <- !app_assoc. reflexivity.
Qed.

Lemma failure_rolls_back_and_releases_witness :
  In (EvEmbed (lit "B!") (Raise (External true 503)))
     (trace (final flaky_world (lit "a.pdf") (lit "sentence") []))
  /\ failed_call (EvEmbed (lit "B!") (Raise (External true 503)))
     = Some (External true 503)
  /\ outcome flaky_world (lit "a.pdf") (lit "sentence") []
     = Raise (External true 503)
  /\ visible (final flaky_world (lit "a.pdf") (lit "sentence") []) = []
  /\ conn (final flaky_world (lit "a.pdf") (lit "sentence") []) = Closed.
Proof.
  assert (Hin : In (EvEmbed (lit "B!") (Raise (External true 503)))
                   (trace (final flaky_world (lit "a.pdf") (lit "sentence") [])))
    by (vm_compute; repeat first [left; reflexivity | right]).
  split; [exact Hin|]. split; [reflexivity|].
  destruct (proj2 (failure_rolls_back_and_releases
                     flaky_world (lit "a.pdf") (lit "sentence") [])
                  _ _ Hin eq_refl)
    as ((e' & He & Hsame & _) & Hv & _ & Hc & _).
  split; [rewrite He; f_equal; apply Hsame; right; reflexivity|].
  split; [exact Hv|exact Hc].
Defined.

(** C2, as stated, fails: [process_document] has no [return] statement.
    On a run where the one sub-chunk is embedded and stored without error
    and the transaction is committed, the caller gets [None], not the
    count 1. *)
Lemma returns_count_counterexample :
  ~ ((forall ev,
         In ev (trace (final quiet_world (lit "a.pdf") (lit "fixed") [])) ->
         failed_call ev = None) ->
     In (EvCommit None) (trace (final quiet_world (lit "a.pdf") (lit "fixed") []))
     /\ outcome quiet_world (lit "a.pdf") (lit "fixed") []
        = Ok (VInt (len (visible (final quiet_world (lit "a.pdf") (lit "fixed") []))))).
Proof.
  intros H. destruct H as [_ H].
  - intros ev Hin. vm_compute in Hin.
    repeat (destruct Hin as [<-|Hin]; [reflexivity|]). destruct Hin.
  - vm_compute in H. discriminate.
Qed.

Lemma loop_failure_kind (fn strat : str) (subs : list str) (ev : event)
      (e : exn) :
  loop_event fn strat subs ev -> failed_event ev = Some e ->
  failed_call ev = Some e
  \/ exists n, ev = EvPrintFailed (MsgProcessedChunk n) e.
Proof.
  destruct ev as [| | m e0| | | | | | | |]; simpl; try contradiction;
    try discriminate; auto.
  destruct m; try contradiction. intros _ H. inversion H; subst. eauto.
Qed.

(** C2 (amended): for every run that opens the transaction and in which no
    embedding call, no storage write and no progress line of the loop
    fails, [process_document] calls commit.  When the commit succeeds, the
    rows written for the document are appended to the table.  When the
    line that reports their count is then printed, [process_document] hands
    [None] back to its caller: the count is reported on standard output,
    never returned.  When printing that line raises, [process_document]
    raises although the rows are committed. *)
Theorem successful_run_commits_and_reports
        (w : world) (file_path strategy : str) (db : list row) :
  In (EvConnect None) (trace (final w file_path strategy db)) ->
  (forall ev, In ev (trace (final w file_path strategy db)) ->
              failed_call ev = None) ->
  (forall n e, ~ In (EvPrintFailed (MsgProcessedChunk n) e)
                    (trace (final w file_path strategy db))) ->
  In (EvCommit (commit_error w)) (trace (final w file_path strategy db))
  /\ (commit_error w = None ->
      exists rows,
        visible (final w file_path strategy db) = db ++ rows
        /\ Forall (fun x => row_filename x = path_name file_path
                            /\ row_strategy_split x = strategy) rows
        /\ (print_error w (MsgStored (len rows)) = None ->
            outcome w file_path strategy db = Ok VNone
            /\ In (EvPrint (MsgStored (len rows)))
                  (trace (final w file_path strategy db)))
        /\ (forall e,
              print_error w (MsgStored (len rows)) = Some e ->
              (exists e', outcome w file_path strategy db = Raise e')
              /\ In (EvPrintFailed (MsgStored (len rows)) e)
                    (trace (final w file_path strategy db)))).
Proof.
  unfold outcome, final.
  destruct (process_document w file_path strategy (init_state db)) as [r s] eqn:E.
  simpl fst. simpl snd. apply process_document_run in E.
  destruct E as [(_ & _ & _ & _ & Hpre)
                |(text & chunks & pre & evs & post & _ & _ & Hpre & Ht & Hle
                  & Hpost & Hc & Hp & Hcases)];
    intros Hconn Hnofail Hprogress.
  - rewrite Forall_forall in Hpre. destruct (Hpre _ Hconn).
  - assert (Hpost_in : forall x, In x post -> In x (trace s)).
    { intros x Hx. rewrite Ht. apply in_or_app. right. simpl. right.
      apply in_or_app. now right. }
    destruct Hcases as [(rows & -> & Hce & Hok & Hpo & Hvis & Hm & Hmeta & Hpr)
                       |[(e & Hok & Hce & Hpo & Hvis & ->)
                        |[(e & evs0 & ev & -> & Hok & Hf & _)
                         |(e & rows & Hok & Hce & Hpr & Hpo & Hvis & Hm
                           & Hmeta & ->)]]].
    + assert (Hlen : len rows
                     = len (safe_chunks_of (List.map clean_chunk chunks))).
      { unfold len. now rewrite <- Hm, length_map. }
      rewrite Hce. split; [apply Hpost_in; rewrite Hpo; simpl; auto|].
      intros _. exists rows. split; [exact Hvis|]. split; [exact Hmeta|].
      rewrite Hlen. split.
      * intros _. split; [reflexivity|].
        apply Hpost_in. rewrite Hpo. simpl. auto.
      * intros e He. rewrite Hpr in He. discriminate.
    + rewrite Hce. split; [apply Hpost_in; rewrite Hpo; simpl; auto|].
      discriminate.
    + exfalso.
      assert (Hin : In ev (trace s)).
      { rewrite Ht. apply in_or_app. right. simpl. right.
        apply in_or_app. left. apply in_or_app. right. simpl. auto. }
      rewrite Forall_forall in Hle.
      assert (Hl : loop_event (path_name file_path) strategy
                     (safe_chunks_of (List.map clean_chunk chunks)) ev).
      { apply Hle. apply in_or_app. right. simpl. auto. }
      destruct (loop_failure_kind _ _ _ _ _ Hl Hf) as [Hcall|(n & ->)].
      * rewrite (Hnofail ev Hin) in Hcall. discriminate.
      * exact (Hprogress n e Hin).
    + assert (Hlen : len rows
                     = len (safe_chunks_of (List.map clean_chunk chunks))).
      { unfold len. now rewrite <- Hm, length_map. }
      rewrite Hce. split; [apply Hpost_in; rewrite Hpo; simpl; auto|].
      intros _. exists rows. split; [exact Hvis|]. split; [exact Hmeta|].
      rewrite Hlen. split.
      * intros He. rewrite Hpr in He. discriminate.
      * intros e0 He. rewrite Hpr in He. inversion He; subst e0.
        split; [eauto|]. apply Hpost_in. rewrite Hpo. simpl. auto.
Qed.

Lemma successful_run_commits_and_reports_witness :
  In (EvConnect None) (trace (final quiet_world (lit "a.pdf") (lit "fixed") []))
  /\ In (EvCommit None) (trace (final quiet_world (lit "a.pdf") (lit "fixed") []))
  /\ exists rows,
      visible (final quiet_world (lit "a.pdf") (lit "fixed") []) = [] ++ rows
      /\ (print_error quiet_world (MsgStored (len rows)) = None ->
          outcome quiet_world (lit "a.pdf") (lit "fixed") [] = Ok VNone
          /\ In (EvPrint (MsgStored (len rows)))
                (trace (final quiet_world (lit "a.pdf") (lit "fixed") []))).
Proof.
  assert (Hconn : In (EvConnect None)
                     (trace (final quiet_world (lit "a.pdf") (lit "fixed") [])))
    by (vm_compute; repeat first [left; reflexivity | right]).
  assert (Hok : forall ev,
             In ev (trace (final quiet_world (lit "a.pdf") (lit "fixed") [])) ->
             failed_call ev = None).
  { intros ev Hin. vm_compute in Hin.
    repeat (destruct Hin as [<-|Hin]; [reflexivity|]). destruct Hin. }
  assert (Hpr : forall n e,
             ~ In (EvPrintFailed (MsgProcessedChunk n) e)
                  (trace (final quiet_world (lit "a.pdf") (lit "fixed") []))).
  { intros n e Hin. vm_compute in Hin.
    repeat (destruct Hin as [Hin|Hin]; [discriminate Hin|]). exact Hin. }
  destruct (successful_run_commits_and_reports
              quiet_world (lit "a.pdf") (lit "fixed") [] Hconn Hok Hpr)
    as [Hcommit Hrest].
  split; [exact Hconn|]. split; [exact Hcommit|].
  destruct (Hrest eq_refl) as (rows & Hv & _ & Hprinted & _).
  exists rows. split; [exact Hv|exact Hprinted].
Defined.

(** ** Content of what is stored *)

Lemma Forall_not_blank_forallb (rows : list row) :
  Forall (fun x => blank (row_chunk_text x) = false) rows ->
  forallb (fun x => negb (blank (row_chunk_text x))) rows = true.
Proof.
  intros H. apply forallb_forall. intros x Hx.
  rewrite Forall_forall in H. rewrite (H x Hx). reflexivity.
Qed.

Lemma long_gap_has_blank_row :
  forallb (fun x => negb (blank (row_chunk_text x)))
          (visible (final long_gap_world (lit "a.pdf") (lit "paragraph") []))
  = false.
Proof. vm_compute. reflexivity. Qed.

(** C6, as stated, fails for the stored texts: a chunk longer than
    [MAX_CHARS] is cut at fixed offsets, and a cut can hold whitespace
    only.  Here the paragraph [a], 12000 carriage returns, [b] is stored as
    three rows, the second one blank. *)
Lemma stored_blank_counterexample :
  ~ Forall (fun x => blank (row_chunk_text x) = false)
           (visible (final long_gap_world (lit "a.pdf") (lit "paragraph") [])).
Proof.
  intros H. apply Forall_not_blank_forallb in H.
  rewrite long_gap_has_blank_row in H. discriminate H.
Qed.

(** C6 (amended): for every strategy, every chunk that reaches the storing
    loop is, once normalized, neither empty nor whitespace-only.  Every
    text handed to the embedding client or to the storage sink, and so
    every stored [chunk_text], is non-empty and has at most [MAX_CHARS]
    characters; it is not whitespace-only when it has fewer than
    [MAX_CHARS] characters. *)
Theorem stored_chunks_have_content
        (w : world) (file_path strategy : str) (db : list row) :
  (forall text chunks,
      chunk_text text strategy = Ok chunks ->
      Forall (fun c => c <> [] /\ blank c = false)
             (List.map clean_chunk chunks))
  /\ (forall t r, In (EvEmbed t r) (trace (final w file_path strategy db)) ->
                  stored_ok t)
  /\ (forall x err, In (EvInsert x err) (trace (final w file_path strategy db)) ->
                    stored_ok (row_chunk_text x))
  /\ exists rows,
      visible (final w file_path strategy db) = db ++ rows
      /\ Forall (fun x => stored_ok (row_chunk_text x)) rows.
Proof.
  split.
  { intros text chunks Hch. apply chunk_text_nonblank in Hch.
    apply Forall_forall. intros c Hc. apply in_map_iff in Hc.
    destruct Hc as (c0 & <- & Hc0). rewrite Forall_forall in Hch.
    assert (Hb : blank (clean_chunk c0) = false)
      by (rewrite clean_chunk_blank; auto).
    split; [now apply blank_false_nonempty|exact Hb]. }
  unfold final.
  destruct (process_document w file_path strategy (init_state db)) as [r s] eqn:E.
  simpl snd. apply process_document_run in E.
  destruct E as [(_ & Hv & _ & _ & Hpre)
                |(text & chunks & pre & evs & post & _ & _ & Hpre & Ht & Hle
                  & Hpost & Hc & Hp & Hcases)].
  - rewrite Forall_forall in Hpre. split; [|split].
    + intros t r0 Hin. destruct (Hpre _ Hin).
    + intros x err Hin. destruct (Hpre _ Hin).
    + exists []. rewrite app_nil_r. split; [exact Hv|constructor].
  - assert (Hev : forall ev, In ev (trace s) ->
                    pre_event ev \/ ev = EvConnect None
                    \/ loop_event (path_name file_path) strategy
                         (safe_chunks_of (List.map clean_chunk chunks)) ev
                    \/ post_event ev).
    { intros ev Hin. rewrite Ht in Hin. rewrite Forall_forall in Hpre, Hle, Hpost.
      apply in_app_or in Hin. destruct Hin as [Hin|Hin]; [auto|].
      apply in_app_or in Hin. destruct Hin as [[<-|[]]|Hin]; [auto|].
      apply in_app_or in Hin. destruct Hin as [Hin|Hin]; auto. }
    split; [|split].
    + intros t r0 Hin.
      destruct (Hev _ Hin) as [H|[H|[H|H]]]; simpl in H;
        try contradiction; try discriminate.
      now apply safe_chunks_stored_ok in H.
    + intros x err Hin.
      destruct (Hev _ Hin) as [H|[H|[H|H]]]; simpl in H;
        try contradiction; try discriminate.
      destruct H as [H _]. now apply safe_chunks_stored_ok in H.
    + destruct Hcases as [(rows & _ & _ & _ & _ & Hvis & Hm & _)
                         |[(e & _ & _ & _ & Hvis & _)
                          |[(e & evs0 & ev & _ & _ & _ & _ & Hvis & _)
                           |(e & rows & _ & _ & _ & _ & Hvis & Hm & _)]]].
      * exists rows. split; [exact Hvis|].
        apply Forall_forall. intros x Hx.
        apply (safe_chunks_stored_ok chunks). rewrite <- Hm.
        now apply in_map.
      * exists []. rewrite app_nil_r. split; [exact Hvis|constructor].
      * exists []. rewrite app_nil_r. split; [exact Hvis|constructor].
      * exists rows. split; [exact Hvis|].
        apply Forall_forall. intros x Hx.
        apply (safe_chunks_stored_ok chunks). rewrite <- Hm.
        now apply in_map.
Qed.

Lemma stored_chunks_have_content_witness :
  chunk_text (lit "A. B! C?") (lit "sentence")
  = Ok [lit "A."; lit "B!"; lit "C?"]
  /\ Forall (fun c => c <> [] /\ blank c = false)
            (List.map clean_chunk [lit "A."; lit "B!"; lit "C?"]).
Proof.
  split; [reflexivity|].
  apply (proj1 (stored_chunks_have_content
                  quiet_world (lit "a.pdf") (lit "sentence") [])
               (lit "A. B! C?")).
  reflexivity.
Defined.

(** ** Fixed strategy: one record per chunk *)

(** C10: with the default configuration the fixed-window loop terminates,
    every chunk it produces has at most 500 characters, so has its
    normalized form, and [enforce_max_length] returns that normalized chunk
    as its single sub-chunk.  On a run with strategy [fixed] that ends
    without error, the rows written are the normalized chunks, one row per
    chunk and in the same order. *)
Theorem fixed_strategy_one_record_per_chunk
        (w : world) (file_path : str) (db : list row) (text : str) :
  split_text_fixed text 500 50 = Some (split_text_fixed_default text)
  /\ Forall (fun c => len c <= 500
                      /\ len (clean_chunk c) <= 500
                      /\ enforce_max_length (clean_chunk c) MAX_CHARS
                         = Ok [clean_chunk c])
            (split_text_fixed_default text)
  /\ (forall v,
        (forall s, fst (extract_text w file_path s) = Ok text) ->
        outcome w file_path (lit "fixed") db = Ok v ->
        exists rows,
          visible (final w file_path (lit "fixed") db) = db ++ rows
          /\ List.map row_chunk_text rows
             = List.map clean_chunk (split_text_fixed_default text)
          /\ len rows = len (split_text_fixed_default text)).
Proof.
  assert (Hchunks :
    Forall (fun c => len c <= 500
                     /\ len (clean_chunk c) <= 500
                     /\ clean_chunk c <> [])
           (split_text_fixed_default text)).
  { pose proof (split_text_fixed_default_bounded text) as Hb.
    pose proof (chunk_text_nonblank text (lit "fixed") _ eq_refl) as Hn.
    rewrite Forall_forall in *. intros c Hc.
    pose proof (clean_chunk_length c). specialize (Hb c Hc).
    split; [exact Hb|]. split; [lia|].
    apply blank_false_nonempty. rewrite clean_chunk_blank. auto. }
  split; [apply split_text_fixed_default_total|]. split.
  { eapply Forall_impl; [|exact Hchunks]. simpl.
    intros c (H1 & H2 & H3). split; [exact H1|]. split; [exact H2|].
    rewrite enforce_max_length_pos by reflexivity.
    rewrite windows_single; trivial. unfold MAX_CHARS. lia. }
  intros v Htext. unfold outcome, final.
  destruct (process_document w file_path (lit "fixed") (init_state db))
    as [r s] eqn:E.
  simpl fst. simpl snd. intros ->. apply process_document_run in E.
  destruct E as [((e & He) & _) | (text' & chunks & pre & evs & post & Hx
                                   & Hch & _ & _ & _ & _ & _ & _ & Hcases)];
    [discriminate|].
  assert (text' = text).
  { specialize (Hx (init_state db)). specialize (Htext (init_state db)).
    congruence. }
  subst text'.
  assert (chunks = split_text_fixed_default text).
  { change (chunk_text text (lit "fixed"))
      with (Ok (split_text_fixed_default text)) in Hch. congruence. }
  subst chunks.
  destruct Hcases as [(rows & _ & _ & _ & _ & Hvis & Hm & _)
                     |[(e & _ & _ & _ & _ & He)
                      |[(e & evs0 & ev & _ & _ & _ & _ & _ & He)
                       |(e & rows' & _ & _ & _ & _ & _ & _ & _ & He)]]];
    try discriminate.
  exists rows. split; [exact Hvis|].
  rewrite safe_chunks_single in Hm.
  - split; [exact Hm|]. unfold len.
    rewrite <- (length_map row_chunk_text), Hm, length_map. reflexivity.
  - apply Forall_forall. intros c Hc. apply in_map_iff in Hc.
    destruct Hc as (c0 & <- & Hc0). rewrite Forall_forall in Hchunks.
    destruct (Hchunks c0 Hc0) as (_ & H2 & H3).
    split; [exact H3|]. unfold MAX_CHARS. lia.
Qed.

Lemma fixed_strategy_one_record_per_chunk_witness :
  (forall s, fst (extract_text quiet_world (lit "a.pdf") s)
             = Ok (lit "Hello world." ++ [10%N]))
  /\ outcome quiet_world (lit "a.pdf") (lit "fixed") [] = Ok VNone
  /\ exists rows,
      visible (final quiet_world (lit "a.pdf") (lit "fixed") []) = [] ++ rows
      /\ List.map row_chunk_text rows
         = List.map clean_chunk
                    (split_text_fixed_default (lit "Hello world." ++ [10%N]))
      /\ len rows = len (split_text_fixed_default (lit "Hello world." ++ [10%N])).
Proof.
  assert (Hx : forall s, fst (extract_text quiet_world (lit "a.pdf") s)
                         = Ok (lit "Hello world." ++ [10%N]))
    by (intros s; reflexivity).
  split; [exact Hx|]. split; [reflexivity|].
  apply (proj2 (proj2 (fixed_strategy_one_record_per_chunk
                         quiet_world (lit "a.pdf") []
                         (lit "Hello world." ++ [10%N])))
               VNone Hx).
  reflexivity.
Defined.

Example run_long_gap :
  List.map (fun x => (len (row_chunk_text x), blank (row_chunk_text x)))
           (visible (final long_gap_world (lit "a.pdf") (lit "paragraph") []))
  = [(6000, false); (6000, true); (2, false)].
Proof. vm_compute. reflexivity. Qed.

(** A failure that [except Exception] does not catch: no rollback call,
    the close alone discards the row already written. *)
Example run_interrupted :
  outcome interrupted_world (lit "a.pdf") (lit "sentence") []
  = Raise (External false 2)
  /\ visible (final interrupted_world (lit "a.pdf") (lit "sentence") []) = []
  /\ conn (final interrupted_world (lit "a.pdf") (lit "sentence") []) = Closed
  /\ ~ In (EvRollback None)
          (trace (final interrupted_world (lit "a.pdf") (lit "sentence") [])).
Proof.
  vm_compute. repeat split. intros H.
  repeat (destruct H as [H|H]; [discriminate H|]). exact H.
Qed.

(** * Further properties of the module *)

(** ** Normal form of [clean_chunk] *)

Lemma tidy_step (cls : char -> bool) (repl : char) (b : bool) (c : char)
      (s : str) :
  tidy cls repl b (c :: s) = true -> tidy cls repl (cls c) s = true.
Proof.
  simpl. destruct (cls c); trivial.
  intros H. apply andb_prop in H. now destruct H.
Qed.

Lemma tidy_only_repl (cls : char -> bool) (repl : char) (b : bool) (s : str)
      (c : char) :
  tidy cls repl b s = true -> In c s -> cls c = true -> c = repl.
Proof.
  revert b. induction s as [|x s IH]; intros b H Hin Hc; [destruct Hin|].
  destruct Hin as [->|Hin].
  - simpl in H. rewrite Hc in H. apply andb_prop in H. destruct H as [H _].
    apply andb_prop in H. destruct H as [_ H]. now apply N.eqb_eq in H.
  - apply tidy_step in H. eapply IH; eauto.
Qed.

Lemma tidy_no_pair (cls : char -> bool) (repl : char) (b : bool)
      (a rest : str) (x y : char) :
  tidy cls repl b (a ++ x :: y :: rest) = true ->
  cls x = true -> cls y = true -> False.
Proof.
  revert b. induction a as [|c a IH]; intros b H Hx Hy.
  - simpl app in H. apply tidy_step in H. rewrite Hx in H.
    simpl in H. rewrite Hy in H. discriminate.
  - simpl app in H. apply tidy_step in H. eapply IH; eauto.
Qed.

Lemma clean_chunk_starts_clean (t : str) : starts_clean (clean_chunk t).
Proof.
  unfold clean_chunk, strip. apply rstrip_starts_clean, lstrip_starts_clean.
Qed.

Lemma clean_chunk_ends_clean (t : str) : starts_clean (rev (clean_chunk t)).
Proof.
  apply rstrip_fixed_ends_clean, strip_fixed_rstrip, clean_chunk_stripped.
Qed.

(** X1: whatever the input, the normalized chunk holds no tab, no two
    spaces in a row, no two newlines in a row, and neither starts nor ends
    with a whitespace character. *)
Theorem clean_chunk_normal_form (t : str) :
  ~ In 9%N (clean_chunk t)
  /\ (forall a b, clean_chunk t <> a ++ [32; 32]%N ++ b)
  /\ (forall a b, clean_chunk t <> a ++ [10; 10]%N ++ b)
  /\ (forall c rest, clean_chunk t = c :: rest -> is_space c = false)
  /\ (forall body c, clean_chunk t = body ++ [c] -> is_space c = false).
Proof.
  pose proof (clean_chunk_tidy_blanks t) as Hb.
  pose proof (clean_chunk_tidy_newlines t) as Hn.
  split; [|split; [|split; [|split]]].
  - intros Hin.
    pose proof (tidy_only_repl _ _ _ _ _ Hb Hin eq_refl). discriminate.
  - intros a b E. rewrite E in Hb.
    now apply (tidy_no_pair is_blank_or_tab 32%N false a b 32%N 32%N).
  - intros a b E. rewrite E in Hn.
    now apply (tidy_no_pair is_newline 10%N false a b 10%N 10%N).
  - intros c rest E. pose proof (clean_chunk_starts_clean t) as H.
    rewrite E in H. exact H.
  - intros body c E. pose proof (clean_chunk_ends_clean t) as H.
    rewrite E, rev_app_distr in H. exact H.
Qed.

(** ** Visible characters *)

Lemma visible_chars_app (a b : str) :
  visible_chars (a ++ b) = visible_chars a ++ visible_chars b.
Proof. apply filter_app. Qed.

Lemma visible_chars_blank (s : str) : blank s = true -> visible_chars s = [].
Proof.
  unfold blank, visible_chars. induction s as [|c s IH]; simpl; trivial.
  intros H. apply andb_prop in H. destruct H as [-> H]. simpl. auto.
Qed.

Lemma visible_chars_nil_blank (s : str) : visible_chars s = [] -> blank s = true.
Proof.
  unfold blank, visible_chars. induction s as [|c s IH]; simpl; trivial.
  destruct (is_space c); simpl; [exact IH|discriminate].
Qed.

Lemma visible_chars_lstrip (s : str) : visible_chars (lstrip s) = visible_chars s.
Proof.
  induction s as [|c s IH]; trivial. simpl lstrip.
  destruct (is_space c) eqn:E; trivial.
  rewrite IH. unfold visible_chars. simpl. now rewrite E.
Qed.

Lemma visible_chars_rev (s : str) : visible_chars (rev s) = rev (visible_chars s).
Proof.
  induction s as [|c s IH]; trivial. simpl rev.
  rewrite visible_chars_app, IH. unfold visible_chars at 2 3. simpl.
  destruct (is_space c); simpl; trivial. now rewrite app_nil_r.
Qed.

Lemma visible_chars_strip (s : str) : visible_chars (strip s) = visible_chars s.
Proof.
  unfold strip. rewrite rstrip_eq, visible_chars_rev, visible_chars_lstrip.
  now rewrite visible_chars_rev, rev_involutive, visible_chars_lstrip.
Qed.

Lemma visible_chars_sub_runs (cls : char -> bool) (repl : char) (b : bool)
      (s : str) :
  (forall c, cls c = true -> is_space c = true) -> is_space repl = true ->
  visible_chars (sub_runs cls repl b s) = visible_chars s.
Proof.
  intros Hcls Hrepl. revert b.
  induction s as [|c s IH]; intros b; trivial. simpl sub_runs.
  destruct (cls c) eqn:Ec.
  - assert (Hs : visible_chars (c :: s) = visible_chars s)
      by (unfold visible_chars; simpl; now rewrite (Hcls c Ec)).
    rewrite Hs. destruct b; [apply IH|].
    unfold visible_chars. simpl. rewrite Hrepl. simpl. apply IH.
  - unfold visible_chars. simpl. destruct (is_space c); simpl;
      [apply IH | f_equal; apply IH].
Qed.

Lemma clean_chunk_visible (t : str) :
  visible_chars (clean_chunk t) = visible_chars t.
Proof.
  unfold clean_chunk, re_sub_runs. rewrite visible_chars_strip.
  rewrite visible_chars_sub_runs;
    [|apply newline_is_space|reflexivity].
  apply visible_chars_sub_runs; [apply blank_or_tab_is_space|reflexivity].
Qed.

(** X2: normalization removes or replaces whitespace only: the characters
    of the chunk that are not whitespace come out unchanged and in the same
    order, and the result is empty exactly when the chunk holds
    whitespace only. *)
Theorem clean_chunk_keeps_visible_chars (t : str) :
  visible_chars (clean_chunk t) = visible_chars t
  /\ (clean_chunk t = [] <-> blank t = true).
Proof.
  split; [apply clean_chunk_visible|]. split.
  - intros E. rewrite <- clean_chunk_blank, E. reflexivity.
  - intros B. rewrite <- clean_chunk_blank in B.
    destruct (clean_chunk t) as [|c r] eqn:E; trivial.
    pose proof (clean_chunk_starts_clean t) as H. rewrite E in H.
    simpl in H. unfold blank in B. simpl in B. rewrite H in B. discriminate.
Qed.

(** ** Sentence and paragraph strategies *)

Lemma concat_push_char (c : char) (pieces : list str) :
  List.concat (push_char c pieces) = c :: List.concat pieces.
Proof. destruct pieces; reflexivity. Qed.

Lemma visible_chars_cons_space (c : char) (s : str) :
  is_space c = true -> visible_chars (c :: s) = visible_chars s.
Proof. intros H. unfold visible_chars. simpl. now rewrite H. Qed.

Lemma visible_chars_split_char (sep : char) (s : str) :
  is_space sep = true ->
  visible_chars (List.concat (split_char sep s)) = visible_chars s.
Proof.
  intros Hsep. induction s as [|c s IH]; trivial. simpl split_char.
  destruct (c =? sep)%N eqn:E.
  - apply N.eqb_eq in E. subst c. simpl List.concat.
    now rewrite visible_chars_cons_space.
  - rewrite concat_push_char. unfold visible_chars in *. simpl.
    now rewrite IH.
Qed.

Lemma visible_chars_split_after (p : char -> bool) (a b : bool) (s : str) :
  visible_chars (List.concat (split_after p a b s)) = visible_chars s.
Proof.
  revert a b. induction s as [|c s IH]; intros a b; trivial.
  simpl split_after. destruct (is_space c) eqn:Ec; simpl andb.
  - destruct b; [|destruct a].
    + rewrite IH. now rewrite visible_chars_cons_space.
    + simpl List.concat. rewrite IH. now rewrite visible_chars_cons_space.
    + rewrite concat_push_char, !visible_chars_cons_space by assumption.
      apply IH.
  - cbv iota. rewrite concat_push_char. unfold visible_chars in *. simpl.
    rewrite Ec. simpl. f_equal. apply IH.
Qed.

Lemma visible_chars_filter_pieces (pieces : list str) :
  visible_chars (List.concat (List.filter (fun s => truthy (strip s)) pieces))
  = visible_chars (List.concat pieces).
Proof.
  induction pieces as [|q pieces IH]; trivial. simpl.
  rewrite truthy_strip. destruct (blank q) eqn:B; simpl.
  - rewrite visible_chars_app, (visible_chars_blank q B). exact IH.
  - now rewrite !visible_chars_app, IH.
Qed.

Lemma split_text_sentence_visible (text : str) :
  visible_chars (List.concat (split_text_sentence text)) = visible_chars text.
Proof.
  unfold split_text_sentence, re_split_after.
  rewrite visible_chars_filter_pieces. apply visible_chars_split_after.
Qed.

Lemma split_text_paragraph_visible (text : str) :
  visible_chars (List.concat (split_text_paragraph text)) = visible_chars text.
Proof.
  unfold split_text_paragraph.
  rewrite visible_chars_filter_pieces. now apply visible_chars_split_char.
Qed.

(** X3: the sentence and the paragraph strategy drop whitespace only: the
    chunks, read one after the other, hold the non-whitespace characters
    of the text, all of them and in the same order. *)
Theorem sentence_and_paragraph_keep_visible_chars (text : str) :
  visible_chars (List.concat (split_text_sentence text)) = visible_chars text
  /\ visible_chars (List.concat (split_text_paragraph text)) = visible_chars text.
Proof.
  split; [apply split_text_sentence_visible|apply split_text_paragraph_visible].
Qed.

Lemma split_char_no_sep (sep : char) (s : str) :
  Forall (fun q => ~ In sep q) (split_char sep s).
Proof.
  induction s as [|c s IH]; simpl; [repeat constructor; auto|].
  destruct (c =? sep)%N eqn:E.
  - constructor; auto.
  - apply N.eqb_neq in E. destruct (split_char sep s) as [|q qs]; simpl.
    + repeat constructor. intros [H|[]]. congruence.
    + inversion IH; subst. constructor; trivial.
      intros [H|H]; [congruence|contradiction].
Qed.

Lemma split_char_whole (sep : char) (s : str) :
  ~ In sep s -> split_char sep s = [s].
Proof.
  induction s as [|c s IH]; trivial. intros H. simpl.
  destruct (c =? sep)%N eqn:E.
  - apply N.eqb_eq in E. subst c. exfalso. apply H. now left.
  - rewrite IH; [reflexivity|]. intros Hin. apply H. now right.
Qed.

(** X4: no paragraph chunk holds a newline, and none is blank; splitting a
    chunk of the paragraph strategy again gives back that chunk alone. *)
Theorem paragraph_chunks_are_single_lines (text : str) :
  Forall (fun c => ~ In 10%N c /\ blank c = false
                   /\ split_text_paragraph c = [c])
         (split_text_paragraph text).
Proof.
  unfold split_text_paragraph at 2. apply Forall_forall. intros c Hc.
  apply filter_In in Hc. destruct Hc as [Hin Hnb].
  pose proof (split_char_no_sep 10%N text) as Hsep.
  rewrite Forall_forall in Hsep. specialize (Hsep c Hin).
  split; [exact Hsep|]. split.
  - rewrite truthy_strip in Hnb. now destruct (blank c).
  - unfold split_text_paragraph. rewrite split_char_whole by assumption.
    simpl. now rewrite Hnb.
Qed.

Lemma Forall_removelast {A} (P : A -> Prop) (l : list A) :
  Forall P l -> Forall P (removelast l).
Proof.
  induction 1 as [|x l Hx Hl IH]; simpl; [constructor|].
  destruct l; [constructor|]. now constructor.
Qed.

(** Pieces of [re.split]: all but the last end with a character of [p];
    only the piece under construction may be empty, right after such a
    character. *)
Lemma split_after_pieces (p : char -> bool) (a b : bool) (s : str) :
  exists h rest,
    split_after p a b s = h :: rest
    /\ (rest <> [] -> ends_with p h \/ (h = [] /\ a = true))
    /\ Forall (ends_with p) (removelast rest).
Proof.
  revert a b. induction s as [|c s IH]; intros a b; simpl.
  - exists [], []. repeat split; [congruence|constructor].
  - destruct (is_space c && b) eqn:E1; [|destruct (is_space c && a) eqn:E2].
    + destruct (IH false true) as (h & rest & -> & Hh & Hrest).
      exists h, rest. split; [reflexivity|]. split; [|exact Hrest].
      intros Hne. destruct (Hh Hne) as [H|[_ H]]; [now left|discriminate].
    + destruct (IH false true) as (h & rest & -> & Hh & Hrest).
      apply andb_prop in E2. destruct E2 as [_ ->].
      exists [], (h :: rest). split; [reflexivity|]. split; [auto|].
      destruct rest as [|r rest]; [constructor|].
      change (removelast (h :: r :: rest)) with (h :: removelast (r :: rest)).
      constructor; [|exact Hrest].
      destruct Hh as [H|[_ H]]; [discriminate|exact H|discriminate].
    + destruct (IH (p c) false) as (h & rest & -> & Hh & Hrest).
      exists (c :: h), rest. split; [reflexivity|]. split; [|exact Hrest].
      intros Hne. left. destruct (Hh Hne) as [(body & x & -> & Hx)|[-> Hc]].
      * exists (c :: body), x. now split.
      * exists [], c. now split.
Qed.

Lemma ends_with_sentence_end_nonblank (q : str) :
  ends_with is_sentence_end q -> truthy (strip q) = true.
Proof.
  intros (body & c & -> & Hc). rewrite truthy_strip.
  unfold blank. rewrite forallb_app. simpl.
  assert (is_space c = false).
  { unfold is_sentence_end in Hc. apply orb_prop in Hc.
    destruct Hc as [Hc|Hc]; [apply orb_prop in Hc; destruct Hc as [Hc|Hc]|];
      apply N.eqb_eq in Hc; subst c; reflexivity. }
  rewrite H. simpl. now rewrite andb_false_r.
Qed.

(** X5: every chunk of the sentence strategy except the last one ends with
    [.], [!] or [?]. *)
Theorem sentence_chunks_end_with_punctuation (text : str) :
  Forall (ends_with is_sentence_end) (removelast (split_text_sentence text)).
Proof.
  unfold split_text_sentence, re_split_after.
  destruct (split_after_pieces is_sentence_end false false text)
    as (h & rest & -> & Hh & Hrest).
  destruct rest as [|r rest].
  - simpl. destruct (truthy (strip h)); constructor.
  - assert (Hinit : Forall (ends_with is_sentence_end)
                           (removelast (h :: r :: rest))).
    { change (removelast (h :: r :: rest)) with (h :: removelast (r :: rest)).
      constructor; [|exact Hrest].
      destruct Hh as [H|[_ H]]; [discriminate|exact H|discriminate]. }
    remember (removelast (h :: r :: rest)) as init eqn:Einit.
    remember (last (h :: r :: rest) []) as l eqn:El.
    assert (E : h :: r :: rest = init ++ [l])
      by (subst init l; apply app_removelast_last; discriminate).
    rewrite E, filter_app.
    assert (Hkeep : List.filter (fun s => truthy (strip s)) init = init).
    { clear -Hinit. induction Hinit as [|q l Hq Hl IH]; trivial.
      simpl. rewrite (ends_with_sentence_end_nonblank q Hq). now rewrite IH. }
    rewrite Hkeep. simpl List.filter.
    destruct (truthy (strip l)).
    + now rewrite removelast_last.
    + rewrite app_nil_r. now apply Forall_removelast.
Qed.

(** ** Fixed-window strategy: coverage and termination *)

(** X6: under [0 <= overlap < size], no visible character is lost by the
    fixed strategy: the character at offset [j], if it is not whitespace,
    sits at offset [k] of the chunk cut at [i*(size-overlap)], with
    [j = i*(size-overlap) + k]. *)
Theorem fixed_strategy_covers_visible_chars
        (text : str) (size overlap : Z) (j : nat) (ch : char) :
  0 <= overlap < size ->
  nth_error text j = Some ch -> is_space ch = false ->
  exists chunks (i k : nat),
    split_text_fixed text size overlap = Some chunks
    /\ Z.of_nat j = Z.of_nat i * (size - overlap) + Z.of_nat k
    /\ In (slice text (Z.of_nat i * (size - overlap))
                 (Z.of_nat i * (size - overlap) + size)) chunks
    /\ nth_error (slice text (Z.of_nat i * (size - overlap))
                        (Z.of_nat i * (size - overlap) + size)) k = Some ch.
Proof.
  intros [Ho Hs] Hj Hch. set (step := size - overlap).
  assert (Hstep : 0 < step) by (unfold step; lia).
  assert (Hjlen : (j < List.length text)%nat)
    by (apply nth_error_Some; congruence).
  pose proof (Z.div_mod (Z.of_nat j) step ltac:(lia)) as Hdm.
  pose proof (Z.mod_pos_bound (Z.of_nat j) step Hstep) as Hmod.
  assert (Hq : 0 <= Z.of_nat j / step) by (apply Z.div_pos; lia).
  set (i := Z.to_nat (Z.of_nat j / step)).
  set (k := Z.to_nat (Z.of_nat j mod step)).
  assert (Hi : Z.of_nat i = Z.of_nat j / step) by (unfold i; lia).
  assert (Hk : Z.of_nat k = Z.of_nat j mod step) by (unfold k; lia).
  rewrite <- Hi, <- Hk in Hdm. rewrite <- Hk in Hmod.
  clearbody i k. clear Hi Hk Hq.
  assert (Hnth : nth_error (slice text (Z.of_nat i * step)
                                  (Z.of_nat i * step + size)) k = Some ch).
  { rewrite slice_window by nia. rewrite nth_error_firstn.
    assert (E : (k <? Z.to_nat size)%nat = true) by (apply Nat.ltb_lt; lia).
    rewrite E, nth_error_skipn.
    replace (Z.to_nat (Z.of_nat i * step) + k)%nat with j by nia. exact Hj. }
  eexists _, i, k. split.
  { unfold split_text_fixed. apply fixed_loop_spec; unfold len; lia. }
  split; [nia|]. split; [|exact Hnth].
  apply filter_In. split.
  - apply in_map_iff. exists (Z.of_nat i * step). split; [reflexivity|].
    unfold range_pos. apply in_map_iff. exists i. split; [lia|].
    apply in_seq. fold step.
    pose proof (range_len_bound (len text) step Hstep (len_nonneg text)).
    unfold len in *. nia.
  - rewrite truthy_strip.
    destruct (blank (slice text (Z.of_nat i * step) (Z.of_nat i * step + size)))
      eqn:B; trivial.
    unfold blank in B. rewrite forallb_forall in B.
    apply nth_error_In in Hnth. rewrite (B ch Hnth) in Hch. discriminate.
Qed.

Lemma fixed_strategy_covers_visible_chars_witness :
  0 <= 1 < 3
  /\ nth_error (lit "ab   cd") 5 = Some 99%N
  /\ is_space 99%N = false
  /\ exists chunks (i k : nat),
      split_text_fixed (lit "ab   cd") 3 1 = Some chunks
      /\ Z.of_nat 5 = Z.of_nat i * (3 - 1) + Z.of_nat k
      /\ In (slice (lit "ab   cd") (Z.of_nat i * (3 - 1))
                   (Z.of_nat i * (3 - 1) + 3)) chunks
      /\ nth_error (slice (lit "ab   cd") (Z.of_nat i * (3 - 1))
                          (Z.of_nat i * (3 - 1) + 3)) k = Some 99%N.
Proof.
  split; [lia|]. split; [reflexivity|]. split; [reflexivity|].
  apply (fixed_strategy_covers_visible_chars (lit "ab   cd") 3 1 5 99%N);
    [lia | reflexivity | reflexivity].
Defined.

(** X7: the loop of [split_text_fixed] comes to an end exactly when
    [overlap < size] or the text is empty; with [overlap >= size] a
    non-empty text keeps it running for ever. *)
Theorem split_text_fixed_terminates_iff (text : str) (size overlap : Z) :
  (exists fuel chunks, fixed_loop fuel text size overlap 0 [] = Some chunks)
  <-> (overlap < size \/ text = []).
Proof.
  split.
  - intros (fuel & chunks & H).
    destruct (Z.lt_ge_cases overlap size) as [Hlt|Hge]; [now left|].
    right. destruct text as [|c text]; trivial.
    rewrite fixed_loop_stuck in H; [discriminate|lia|discriminate|lia].
  - intros [Hlt| ->].
    + exists (List.length text). eexists.
      apply fixed_loop_spec; unfold len; lia.
    + exists O, []. reflexivity.
Qed.

(** ** Length enforcer: number and size of the pieces *)

Lemma removelast_map {A B} (f : A -> B) (l : list A) :
  removelast (List.map f l) = List.map f (removelast l).
Proof.
  induction l as [|x l IH]; trivial. simpl.
  destruct l; [reflexivity|]. simpl in *. now rewrite IH.
Qed.

Lemma removelast_seq (n : nat) : removelast (seq 0 n) = seq 0 (n - 1).
Proof.
  destruct n; trivial. rewrite seq_S, removelast_last.
  f_equal. lia.
Qed.

(** X8: for a positive budget, [enforce_max_length] returns
    [ceil(len(text) / max_chars)] pieces, and every piece except the last
    has exactly [max_chars] characters. *)
Theorem enforce_max_length_piece_sizes (text : str) (max_chars : Z) :
  0 < max_chars ->
  exists parts,
    enforce_max_length text max_chars = Ok parts
    /\ len parts = (len text + max_chars - 1) / max_chars
    /\ Forall (fun p => len p = max_chars) (removelast parts).
Proof.
  intros Hm. exists (windows text max_chars).
  split; [now apply enforce_max_length_pos|].
  pose proof (len_nonneg text) as Hl.
  assert (Hn : Z.of_nat (range_len 0 (len text) max_chars)
               = (len text + max_chars - 1) / max_chars).
  { unfold range_len. destruct (0 <? len text) eqn:E.
    - apply Z.ltb_lt in E. rewrite Z.sub_0_r.
      rewrite Z2Nat.id; [reflexivity|apply Z.div_pos; lia].
    - apply Z.ltb_ge in E. rewrite Z.div_small; lia. }
  split.
  - unfold windows, range_pos, len at 1. now rewrite !length_map, length_seq.
  - unfold windows, range_pos. rewrite !removelast_map, removelast_seq.
    apply Forall_forall. intros q Hq.
    apply in_map_iff in Hq. destruct Hq as (i & <- & Hi).
    apply in_map_iff in Hi. destruct Hi as (k & <- & Hk).
    apply in_seq in Hk.
    assert (Hlast : In (0 + Z.of_nat (range_len 0 (len text) max_chars - 1)
                            * max_chars)
                       (range_pos 0 (len text) max_chars)).
    { unfold range_pos. apply in_map_iff. eexists. split; [reflexivity|].
      apply in_seq. lia. }
    apply range_pos_spec in Hlast; [|exact Hm].
    rewrite slice_window by lia. unfold len in *.
    rewrite length_firstn, length_skipn. nia.
Qed.

Lemma enforce_max_length_piece_sizes_witness :
  0 < 3
  /\ exists parts,
      enforce_max_length (lit "abcdefg") 3 = Ok parts
      /\ len parts = (len (lit "abcdefg") + 3 - 1) / 3
      /\ Forall (fun p => len p = 3) (removelast parts).
Proof.
  split; [lia | apply (enforce_max_length_piece_sizes (lit "abcdefg") 3); lia].
Defined.

(** ** All or nothing *)

Lemma concat_safe_chunks (chunks : list str) :
  List.concat (safe_chunks_of chunks) = List.concat chunks.
Proof.
  unfold safe_chunks_of. induction chunks as [|c chunks IH]; trivial.
  simpl. rewrite concat_app, IH. now rewrite windows_concat.
Qed.

Lemma safe_chunks_bounded (chunks : list str) :
  Forall (fun t => len t <= MAX_CHARS) (safe_chunks_of chunks).
Proof.
  unfold safe_chunks_of. apply Forall_forall. intros t Ht.
  apply in_flat_map in Ht. destruct Ht as (c & _ & Ht).
  pose proof (windows_bounded c MAX_CHARS eq_refl) as H.
  rewrite Forall_forall in H. now apply H.
Qed.

Lemma abort_tail_no_commit (w : world) (e : exn) (c : option exn) :
  ~ In (EvCommit c) (abort_tail w e).
Proof.
  unfold abort_tail. destruct (is_Exception e); simpl; intuition discriminate.
Qed.

(** X9: the table changes only through a commit that succeeds, and such a
    commit adds the rows of the whole document at once.  After a run,
    either no commit has succeeded, the run has raised and the table shows
    exactly what it showed before; or the commit has succeeded and the
    table has gained, in order, one row per sub-chunk of the document (the
    stored texts spell the normalized chunks, each has at most [MAX_CHARS]
    characters and carries the file name and the strategy).  In the second
    case the run returns when the line reporting the count is printed, and
    raises when printing it fails.  In every case no connection is left
    open and no row is left pending. *)
Theorem process_document_all_or_nothing
        (w : world) (file_path strategy : str) (db : list row) :
  conn (final w file_path strategy db) <> Open
  /\ pending (final w file_path strategy db) = []
  /\ ((~ In (EvCommit None) (trace (final w file_path strategy db))
       /\ visible (final w file_path strategy db) = db
       /\ exists e, outcome w file_path strategy db = Raise e)
      \/ (In (EvCommit None) (trace (final w file_path strategy db))
          /\ exists text chunks rows,
              (forall s, fst (extract_text w file_path s) = Ok text)
              /\ chunk_text text strategy = Ok chunks
              /\ visible (final w file_path strategy db) = db ++ rows
              /\ List.concat (List.map row_chunk_text rows)
                 = List.concat (List.map clean_chunk chunks)
              /\ Forall (fun x => len (row_chunk_text x) <= MAX_CHARS
                                  /\ row_filename x = path_name file_path
                                  /\ row_strategy_split x = strategy) rows
              /\ ((print_error w (MsgStored (len rows)) = None
                   /\ outcome w file_path strategy db = Ok VNone)
                  \/ (exists e e',
                         print_error w (MsgStored (len rows)) = Some e
                         /\ outcome w file_path strategy db = Raise e')))).
Proof.
  unfold outcome, final.
  destruct (process_document w file_path strategy (init_state db)) as [r s] eqn:E.
  simpl fst. simpl snd. apply process_document_run in E.
  destruct E as [((e & ->) & Hv & Hp & Hc & Hpre)
                |(text & chunks & pre & evs & post & Hx & Hch & Hpre & Ht & Hle
                  & _ & Hc & Hp & Hcases)].
  - rewrite Hc, Hp. split; [discriminate|]. split; [reflexivity|]. left.
    split; [|eauto]. intros Hin. rewrite Forall_forall in Hpre.
    destruct (Hpre _ Hin).
  - rewrite Hc, Hp. split; [discriminate|]. split; [reflexivity|].
    assert (Hnot : ~ In (EvCommit None) post ->
                   ~ In (EvCommit None) (trace s)).
    { intros Hpo Hin. rewrite Ht in Hin. rewrite Forall_forall in Hpre, Hle.
      apply in_app_or in Hin. destruct Hin as [Hin|Hin];
        [destruct (Hpre _ Hin)|].
      apply in_app_or in Hin. destruct Hin as [[H|[]]|Hin]; [discriminate|].
      apply in_app_or in Hin. destruct Hin as [Hin|Hin];
        [destruct (Hle _ Hin)|auto]. }
    assert (Hyes : In (EvCommit None) post -> In (EvCommit None) (trace s)).
    { intros Hin. rewrite Ht. apply in_or_app. right. simpl. right.
      apply in_or_app. now right. }
    assert (Hrows : forall rows,
      List.map row_chunk_text rows
      = safe_chunks_of (List.map clean_chunk chunks) ->
      Forall (fun x => row_filename x = path_name file_path
                       /\ row_strategy_split x = strategy) rows ->
      List.concat (List.map row_chunk_text rows)
      = List.concat (List.map clean_chunk chunks)
      /\ Forall (fun x => len (row_chunk_text x) <= MAX_CHARS
                          /\ row_filename x = path_name file_path
                          /\ row_strategy_split x = strategy) rows
      /\ len rows = len (safe_chunks_of (List.map clean_chunk chunks))).
    { intros rows Hm Hmeta. split; [rewrite Hm; apply concat_safe_chunks|].
      split.
      - pose proof (safe_chunks_bounded (List.map clean_chunk chunks)) as Hb.
        rewrite <- Hm in Hb. rewrite Forall_forall in Hb, Hmeta.
        apply Forall_forall. intros x Hx'. split; [|now apply Hmeta].
        apply Hb. now apply in_map.
      - unfold len. now rewrite <- Hm, length_map. }
    destruct Hcases as [(rows & -> & _ & _ & Hpo & Hvis & Hm & Hmeta & Hpr)
                       |[(e & _ & _ & Hpo & Hvis & ->)
                        |[(e & evs0 & ev & _ & _ & _ & Hpo & Hvis & ->)
                         |(e & rows & _ & _ & Hpr & Hpo & Hvis & Hm
                           & Hmeta & ->)]]].
    + right. split; [apply Hyes; rewrite Hpo; simpl; auto|].
      destruct (Hrows rows Hm Hmeta) as (H1 & H2 & H3).
      exists text, chunks, rows. rewrite H3. auto 10.
    + left. split; [|eauto]. apply Hnot. rewrite Hpo.
      intros [H|H]; [discriminate|]. exact (abort_tail_no_commit _ _ _ H).
    + left. split; [|eauto]. apply Hnot. rewrite Hpo.
      apply abort_tail_no_commit.
    + right. split; [apply Hyes; rewrite Hpo; simpl; auto|].
      destruct (Hrows rows Hm Hmeta) as (H1 & H2 & H3).
      exists text, chunks, rows. rewrite H3.
      split; [exact Hx|]. split; [exact Hch|]. split; [exact Hvis|].
      split; [exact H1|]. split; [exact H2|]. right. eauto.
Qed.

(** ** Runs that reach the connection *)

Section Reaching_the_connection.

Variable w : world.

Lemma process_document_connects (file_path strategy : str) (db : list row)
      (text : str) (chunks : list str) :
  path_exists w file_path = true ->
  print_error w (MsgProcessing (path_name file_path)) = None ->
  (forall s, fst (extract_text w file_path s) = Ok text) ->
  chunk_text text strategy = Ok chunks ->
  print_error w (MsgCreated (len (List.map clean_chunk chunks)) strategy)
  = None ->
  exists pre,
    Forall pre_event pre
    /\ (forall t r, ~ In (EvEmbed t r) pre)
    /\ process_document w file_path strategy (init_state db)
       = (get_db_connection w ;;;
          try_except_finally
            (store_chunks w (path_name file_path) strategy
                          (List.map clean_chunk chunks))
            (fun e => conn_rollback w ;;; raise e)
            conn_close)
           (mkState db [] NotConnected 0 0 pre).
Proof.
  intros Hex Hpr1 Htext Hch Hpr2.
  destruct (extract_text_uniform w file_path) as (rt & evs & Hevs & _ & _ & Hx).
  assert (rt = Ok text).
  { specialize (Htext (init_state db)). now rewrite Hx in Htext. }
  subst rt.
  exists ([EvExists file_path; EvPrint (MsgProcessing (path_name file_path))]
            ++ evs
            ++ [EvPrint (MsgCreated (len (List.map clean_chunk chunks)) strategy)]).
  split; [|split].
  - apply read_events_pre in Hevs.
    repeat first [ assumption | apply Forall_nil
                 | apply Forall_cons; [exact I|] | apply Forall_app; split ].
  - intros t r Hin. simpl in Hin.
    destruct Hin as [H|[H|Hin]]; try discriminate.
    apply in_app_or in Hin. destruct Hin as [Hin|[H|[]]]; [|discriminate].
    destruct Hevs as [->|[->| ->]]; simpl in Hin; intuition discriminate.
  - unfold process_document. rewrite bind_run.
    unfold os_path_exists. rewrite bind_run. unfold log at 1, ret at 1. simpl.
    rewrite Hex. simpl. rewrite bind_run, print_run, Hpr1.
    cbn [visible pending conn embed_calls insert_calls trace].
    rewrite bind_run, Hx. simpl. rewrite bind_run. unfold lift.
    rewrite Hch. rewrite bind_run, print_run, Hpr2.
    cbn [visible pending conn embed_calls insert_calls trace].
    reflexivity.
Qed.

End Reaching_the_connection.

Lemma slice_incl (s : str) (i j : Z) (c : char) : In c (slice s i j) -> In c s.
Proof.
  unfold slice. intros H.
  set (lo := Z.to_nat (clamp (len s) i)) in *.
  set (n := Z.to_nat (clamp (len s) j - clamp (len s) i)) in *.
  rewrite <- (firstn_skipn lo s). apply in_or_app. right.
  rewrite <- (firstn_skipn n (skipn lo s)). apply in_or_app. now left.
Qed.

Lemma nonblank_has_visible (s : str) :
  blank s = false -> exists c, In c s /\ is_space c = false.
Proof.
  unfold blank. induction s as [|x s IH]; simpl; [discriminate|].
  destruct (is_space x) eqn:E; simpl.
  - intros H. destruct (IH H) as (c & Hc & Hs). eauto.
  - intros _. eauto.
Qed.

Lemma blank_all_space (s : str) (c : char) :
  blank s = true -> In c s -> is_space c = true.
Proof. unfold blank. rewrite forallb_forall. auto. Qed.

(** A text without visible character has no chunk, whatever the strategy. *)
Lemma chunk_text_blank (text strategy : str) (chunks : list str) :
  blank text = true -> chunk_text text strategy = Ok chunks -> chunks = [].
Proof.
  intros Hb Hch. pose proof (chunk_text_nonblank _ _ _ Hch) as Hnb.
  destruct chunks as [|c chunks]; trivial. exfalso.
  inversion Hnb as [|? ? Hc _]; subst.
  destruct (nonblank_has_visible c Hc) as (x & Hx & Hs).
  assert (Hin : In x text).
  { unfold chunk_text in Hch.
    destruct (str_eqb strategy (lit "fixed"));
      [|destruct (str_eqb strategy (lit "sentence"));
        [|destruct (str_eqb strategy (lit "paragraph"))]];
      inversion Hch as [E]; clear Hch.
    - rewrite split_text_fixed_default_spec in E.
      assert (Hc0 : In c (c :: chunks)) by now left.
      rewrite <- E in Hc0. apply filter_In in Hc0. destruct Hc0 as [Hc0 _].
      apply in_map_iff in Hc0. destruct Hc0 as (i & <- & _).
      now apply slice_incl in Hx.
    - pose proof (split_text_sentence_visible text) as Hv.
      rewrite E in Hv.
      assert (In x (visible_chars (List.concat (c :: chunks)))).
      { apply filter_In. split; [|now rewrite Hs].
        simpl. apply in_or_app. now left. }
      rewrite Hv in H. now apply filter_In in H.
    - pose proof (split_text_paragraph_visible text) as Hv.
      rewrite E in Hv.
      assert (In x (visible_chars (List.concat (c :: chunks)))).
      { apply filter_In. split; [|now rewrite Hs].
        simpl. apply in_or_app. now left. }
      rewrite Hv in H. now apply filter_In in H. }
  rewrite (blank_all_space text x Hb Hin) in Hs. discriminate.
Qed.

(** X10: a document whose text holds whitespace only has no chunk: with a
    recognized strategy, a standard output that takes the three progress
    lines, a reachable database and a commit that succeeds, the run opens
    a transaction, commits it empty, reports 0 and returns; the embedding
    client is never called and the table is unchanged. *)
Theorem blank_document_stores_nothing
        (w : world) (file_path strategy : str) (db : list row) (text : str) :
  path_exists w file_path = true ->
  (forall s, fst (extract_text w file_path s) = Ok text) ->
  blank text = true ->
  strategy = lit "fixed" \/ strategy = lit "sentence"
  \/ strategy = lit "paragraph" ->
  print_error w (MsgProcessing (path_name file_path)) = None ->
  print_error w (MsgCreated 0 strategy) = None ->
  print_error w (MsgStored 0) = None ->
  connect_error w = None -> commit_error w = None ->
  chunk_text text strategy = Ok []
  /\ outcome w file_path strategy db = Ok VNone
  /\ visible (final w file_path strategy db) = db
  /\ (forall t r, ~ In (EvEmbed t r) (trace (final w file_path strategy db)))
  /\ exists pre,
      trace (final w file_path strategy db)
      = pre ++ [EvConnect None; EvCommit None; EvPrint (MsgStored 0); EvClose].
Proof.
  intros Hex Htext Hblank Hstrat Hpr1 Hpr2 Hpr3 Hconn Hcommit.
  assert (Hch : exists chunks, chunk_text text strategy = Ok chunks).
  { destruct Hstrat as [->|[->| ->]]; eexists; reflexivity. }
  destruct Hch as (chunks & Hch).
  assert (chunks = []) by (eapply chunk_text_blank; eauto). subst chunks.
  split; [exact Hch|].
  destruct (process_document_connects w file_path strategy db text []
              Hex Hpr1 Htext Hch Hpr2) as (pre & _ & Hpre & Hrun).
  unfold outcome, final. rewrite Hrun. clear Hrun.
  rewrite bind_run. unfold get_db_connection. rewrite Hconn.
  unfold try_except_finally, store_chunks. simpl List.map. simpl for_each.
  rewrite bind_run. unfold ret at 1. rewrite bind_run.
  unfold conn_commit. rewrite Hcommit.
  unfold ret, bind, print, conn_close. cbn. rewrite Hpr3.
  unfold log, bind. cbn.
  split; [reflexivity|]. split; [now rewrite app_nil_r|]. split.
  - intros t r Hin. apply in_app_or in Hin. destruct Hin as [Hin|Hin].
    + apply in_app_or in Hin. destruct Hin as [Hin|Hin].
      * apply in_app_or in Hin. destruct Hin as [Hin|Hin].
        -- apply in_app_or in Hin. destruct Hin as [Hin|Hin];
             [exact (Hpre t r Hin)|].
           destruct Hin as [H|[]]; discriminate.
        -- destruct Hin as [H|[]]; discriminate.
      * destruct Hin as [H|[]]; discriminate.
    + destruct Hin as [H|[]]; discriminate.
  - exists pre. rewrite <- !app_assoc. reflexivity.
Qed.

Lemma blank_document_stores_nothing_witness :
  path_exists blank_world (lit "a.pdf") = true
  /\ blank (lit "   " ++ [10%N]) = true
  /\ print_error blank_world (MsgStored 0) = None
  /\ outcome blank_world (lit "a.pdf") (lit "sentence") [] = Ok VNone
  /\ visible (final blank_world (lit "a.pdf") (lit "sentence") []) = [].
Proof.
  split; [reflexivity|]. split; [reflexivity|]. split; [reflexivity|].
  destruct (blank_document_stores_nothing
              blank_world (lit "a.pdf") (lit "sentence") []
              (lit "   " ++ [10%N]))
    as (_ & Ho & Hv & _);
    [reflexivity | intros s; reflexivity | reflexivity
     | right; left; reflexivity | reflexivity | reflexivity | reflexivity
     | reflexivity | reflexivity | ].
  split; [exact Ho|exact Hv].
Defined.

(** X11: a path that does not exist makes [process_document] raise
    [FileNotFoundError] at once, whatever the extension and the strategy:
    the existence test is the only call of the run, nothing is printed, and
    the table is unchanged. *)
Theorem missing_file_fails_first
        (w : world) (file_path strategy : str) (db : list row) :
  path_exists w file_path = false ->
  outcome w file_path strategy db = Raise (FileNotFoundError file_path)
  /\ trace (final w file_path strategy db) = [EvExists file_path]
  /\ conn (final w file_path strategy db) = NotConnected
  /\ visible (final w file_path strategy db) = db.
Proof.
  intros H. unfold outcome, final.
  rewrite process_document_not_found by assumption. simpl. auto.
Qed.

Lemma missing_file_fails_first_witness :
  path_exists empty_disk_world (lit "a.pdf") = false
  /\ outcome empty_disk_world (lit "a.pdf") (lit "bogus") []
     = Raise (FileNotFoundError (lit "a.pdf"))
  /\ trace (final empty_disk_world (lit "a.pdf") (lit "bogus") [])
     = [EvExists (lit "a.pdf")].
Proof.
  split; [reflexivity|].
  destruct (missing_file_fails_first
              empty_disk_world (lit "a.pdf") (lit "bogus") [] eq_refl)
    as (Ho & Ht & _).
  split; [exact Ho|exact Ht].
Defined.

(** X12: when the document is read and chunked, its two progress lines
    are printed, and the database connection cannot be opened, the failure
    of the connection is what [process_document] raises; the embedding
    client is not called, and neither rollback nor close is called, the
    [try] statement not having been entered. *)
Theorem connection_failure_stops_the_run
        (w : world) (file_path strategy : str) (db : list row)
        (text : str) (chunks : list str) (e : exn) :
  path_exists w file_path = true ->
  print_error w (MsgProcessing (path_name file_path)) = None ->
  (forall s, fst (extract_text w file_path s) = Ok text) ->
  chunk_text text strategy = Ok chunks ->
  print_error w (MsgCreated (len (List.map clean_chunk chunks)) strategy)
  = None ->
  connect_error w = Some e ->
  outcome w file_path strategy db = Raise e
  /\ conn (final w file_path strategy db) = NotConnected
  /\ visible (final w file_path strategy db) = db
  /\ (forall t r, ~ In (EvEmbed t r) (trace (final w file_path strategy db)))
  /\ ~ In EvClose (trace (final w file_path strategy db))
  /\ (forall err, ~ In (EvRollback err) (trace (final w file_path strategy db))).
Proof.
  intros Hex Hpr1 Htext Hch Hpr2 Hconn.
  destruct (process_document_connects w file_path strategy db text chunks
              Hex Hpr1 Htext Hch Hpr2) as (pre & Hpre & Hnoembed & Hrun).
  unfold outcome, final. rewrite Hrun. clear Hrun.
  rewrite bind_run. unfold get_db_connection. rewrite Hconn. simpl.
  rewrite Forall_forall in Hpre.
  split; [reflexivity|]. split; [reflexivity|]. split; [reflexivity|].
  split; [|split].
  - intros t r Hin. apply in_app_or in Hin.
    destruct Hin as [Hin|[H|[]]]; [exact (Hnoembed t r Hin)|discriminate].
  - intros Hin. apply in_app_or in Hin.
    destruct Hin as [Hin|[H|[]]]; [exact (Hpre _ Hin)|discriminate].
  - intros err Hin. apply in_app_or in Hin.
    destruct Hin as [Hin|[H|[]]]; [exact (Hpre _ Hin)|discriminate].
Qed.

Lemma connection_failure_stops_the_run_witness :
  path_exists offline_world (lit "a.pdf") = true
  /\ print_error offline_world (MsgProcessing (path_name (lit "a.pdf"))) = None
  /\ connect_error offline_world = Some (External true 111)
  /\ outcome offline_world (lit "a.pdf") (lit "fixed") []
     = Raise (External true 111)
  /\ conn (final offline_world (lit "a.pdf") (lit "fixed") []) = NotConnected.
Proof.
  split; [reflexivity|]. split; [reflexivity|]. split; [reflexivity|].
  destruct (connection_failure_stops_the_run
              offline_world (lit "a.pdf") (lit "fixed") []
              (lit "Hello world." ++ [10%N])
              (split_text_fixed_default (lit "Hello world." ++ [10%N]))
              (External true 111))
    as (Ho & Hc & _);
    [reflexivity | reflexivity | intros s; reflexivity | reflexivity
     | reflexivity | reflexivity | ].
  split; [exact Ho|exact Hc].
Defined.

(** ** Rows and their embeddings *)

Section Pairing.

Variable w : world.
Variables filename strategy : str.

Lemma process_safe_chunk_ok (n : Z) (t : str) (s : state) (n' : Z)
      (s' : state) :
  process_safe_chunk w filename strategy n t s = (Ok n', s') ->
  exists emb,
    embed_content w (embed_calls s) t = Ok emb
    /\ execute_error w (insert_calls s) (mkRow t emb filename strategy) = None
    /\ pending s' = pending s ++ [mkRow t emb filename strategy]
    /\ visible s' = visible s
    /\ embed_calls s' = S (embed_calls s)
    /\ insert_calls s' = S (insert_calls s).
Proof.
  unfold process_safe_chunk, bind, generate_embedding, insert_to_db, print.
  destruct (embed_content w (embed_calls s) t) as [emb|e] eqn:Ee; simpl.
  - destruct (execute_error w (insert_calls s) (mkRow t emb filename strategy))
      as [e|] eqn:Ex; simpl; [discriminate|].
    destruct (print_error w (MsgProcessedChunk (n + 1))) as [e|];
      unfold log, bind, raise, ret; simpl;
      intros H; inversion H; subst; clear H; simpl.
    exists emb. auto 10.
  - discriminate.
Qed.

(** The rows a loop without failure has written: row [i] holds the answer
    of embedding call [i] to its own text, counted from the calls made
    before the loop. *)
Lemma flat_loop_pairs (subs : list str) (n0 : Z) (s0 : state) (n : Z)
      (s1 : state) :
  for_each subs n0 (process_safe_chunk w filename strategy) s0 = (Ok n, s1) ->
  exists rows,
    pending s1 = pending s0 ++ rows
    /\ visible s1 = visible s0
    /\ embed_calls s1 = (embed_calls s0 + List.length rows)%nat
    /\ insert_calls s1 = (insert_calls s0 + List.length rows)%nat
    /\ forall i x,
        nth_error rows i = Some x ->
        embed_content w (embed_calls s0 + i) (row_chunk_text x)
        = Ok (row_embedding x)
        /\ execute_error w (insert_calls s0 + i) x = None.
Proof.
  revert n0 s0. induction subs as [|t subs IH]; intros n0 s0; cbn [for_each].
  - unfold ret. intros H; inversion H; subst; clear H.
    exists []. rewrite app_nil_r. simpl. rewrite !Nat.add_0_r.
    split; [reflexivity|]. split; [reflexivity|].
    split; [reflexivity|]. split; [reflexivity|].
    intros [|i] x Hx; discriminate.
  - rewrite bind_run.
    destruct (process_safe_chunk w filename strategy n0 t s0)
      as [[n1|e] sa] eqn:E1; [|discriminate].
    apply process_safe_chunk_ok in E1.
    destruct E1 as (emb & Hemb & Hins & Hpa & Hva & Heca & Hica).
    intros H. apply IH in H.
    destruct H as (rows & Hp & Hv & Hec & Hic & Hrows).
    exists (mkRow t emb filename strategy :: rows).
    split; [rewrite Hp, Hpa, <- app_assoc; reflexivity|].
    split; [congruence|].
    split; [rewrite Hec, Heca; simpl; lia|].
    split; [rewrite Hic, Hica; simpl; lia|].
    intros [|i] x Hx.
    + inversion Hx; subst; clear Hx. simpl.
      rewrite !Nat.add_0_r. split; assumption.
    + simpl in Hx. specialize (Hrows i x Hx).
      rewrite Heca, Hica in Hrows.
      rewrite !Nat.add_succ_r. exact Hrows.
Qed.

(** A [try] statement that ends without exception has run its loop to the
    end and committed what the loop wrote. *)
Lemma transaction_success (chunks : list str) (s0 : state) (v : value)
      (s : state) :
  try_except_finally (store_chunks w filename strategy chunks)
                     (fun e => conn_rollback w ;;; raise e)
                     conn_close s0 = (Ok v, s) ->
  exists n s1,
    for_each chunks 0 (process_chunk w filename strategy) s0 = (Ok n, s1)
    /\ visible s = visible s1 ++ pending s1
    /\ embed_calls s = embed_calls s1
    /\ insert_calls s = insert_calls s1.
Proof.
  unfold try_except_finally, store_chunks. rewrite bind_run.
  destruct (for_each chunks 0 (process_chunk w filename strategy) s0)
    as [[n|e] s1].
  - rewrite bind_run. unfold conn_commit.
    destruct (commit_error w) as [e|].
    + destruct (is_Exception e).
      * rewrite bind_run. unfold conn_rollback.
        destruct (rollback_error w); unfold raise, conn_close; discriminate.
      * unfold conn_close. discriminate.
    + rewrite bind_run, print_run.
      destruct (print_error w (MsgStored n)) as [e|].
      * destruct (is_Exception e).
        -- rewrite bind_run. unfold conn_rollback.
           destruct (rollback_error w); unfold raise, conn_close; discriminate.
        -- unfold conn_close. discriminate.
      * unfold ret, conn_close. simpl.
        intros H; inversion H; subst; clear H. simpl. eauto 10.
  - destruct (is_Exception e).
    + rewrite bind_run. unfold conn_rollback.
      destruct (rollback_error w); unfold raise, conn_close; discriminate.
    + unfold conn_close. discriminate.
Qed.

End Pairing.

(** X13: when [process_document] returns, the [i]-th row it has added to
    the table holds, next to its text, the vector that the [i]-th embedding
    call of the run returned for this very text, and it was written by the
    [i]-th insert; the run has made one embedding call and one insert per
    row, and no more. *)
Theorem stored_rows_pair_text_and_embedding
        (w : world) (file_path strategy : str) (db : list row) (v : value) :
  outcome w file_path strategy db = Ok v ->
  exists rows,
    visible (final w file_path strategy db) = db ++ rows
    /\ embed_calls (final w file_path strategy db) = List.length rows
    /\ insert_calls (final w file_path strategy db) = List.length rows
    /\ forall i x,
        nth_error rows i = Some x ->
        embed_content w i (row_chunk_text x) = Ok (row_embedding x)
        /\ execute_error w i x = None.
Proof.
  unfold outcome, final.
  destruct (process_document w file_path strategy (init_state db)) as [r s] eqn:E.
  simpl fst. simpl snd. intros ->.
  apply process_document_reach in E.
  destruct E as [((e & He) & _)|(text & chunks & pre & _ & _ & _ & _ & Hrun)];
    [discriminate|].
  apply transaction_success in Hrun.
  destruct Hrun as (n & s1 & Hloop & Hvis & Hec & Hic).
  rewrite for_each_process_chunk in Hloop.
  apply flat_loop_pairs in Hloop.
  destruct Hloop as (rows & Hp & Hv1 & Hec1 & Hic1 & Hrows).
  simpl in Hp, Hv1, Hec1, Hic1, Hrows. exists rows.
  split; [rewrite Hvis, Hv1, Hp; reflexivity|].
  split; [congruence|]. split; [congruence|]. exact Hrows.
Qed.

Lemma stored_rows_pair_text_and_embedding_witness :
  outcome quiet_world (lit "a.pdf") (lit "fixed") [] = Ok VNone
  /\ exists rows,
      visible (final quiet_world (lit "a.pdf") (lit "fixed") []) = [] ++ rows
      /\ embed_calls (final quiet_world (lit "a.pdf") (lit "fixed") [])
         = List.length rows.
Proof.
  split; [reflexivity|].
  destruct (stored_rows_pair_text_and_embedding
              quiet_world (lit "a.pdf") (lit "fixed") [] VNone eq_refl)
    as (rows & Hv & He & _).
  exists rows. split; [exact Hv|exact He].
Defined.

(** ** DOCX paragraphs and the paragraph strategy *)

Lemma fold_left_lines (ps : list str) (acc : str) :
  fold_left (fun text paragraph => text ++ paragraph ++ [10%N]) ps acc
  = acc ++ List.concat (List.map (fun q => q ++ [10%N]) ps).
Proof.
  revert acc. induction ps as [|q ps IH]; intros acc; simpl.
  - now rewrite app_nil_r.
  - rewrite IH. now rewrite <- !app_assoc.
Qed.

Lemma split_char_line (sep : char) (q rest : str) :
  ~ In sep q ->
  split_char sep (q ++ sep :: rest) = q :: split_char sep rest.
Proof.
  induction q as [|c q IH]; intros H; simpl.
  - now rewrite N.eqb_refl.
  - destruct (c =? sep)%N eqn:E.
    + apply N.eqb_eq in E. subst c. exfalso. apply H. now left.
    + rewrite IH; [reflexivity|]. intros Hin. apply H. now right.
Qed.

Lemma split_char_lines (sep : char) (ps : list str) :
  Forall (fun q => ~ In sep q) ps ->
  split_char sep (List.concat (List.map (fun q => q ++ [sep]) ps))
  = ps ++ [[]].
Proof.
  induction 1 as [|q ps Hq _ IH]; trivial. simpl.
  rewrite <- app_assoc. simpl. rewrite split_char_line by assumption.
  now rewrite IH.
Qed.

(** X14: the DOCX reader and the paragraph strategy compose to the
    identity on paragraphs: when no paragraph of the document holds a
    newline, the chunks of its extracted text are the paragraphs that are
    not blank, unchanged and in the order of the document. *)
Theorem docx_paragraphs_come_back
        (w : world) (file_path : str) (paragraphs : list str) :
  file_extension w file_path = lit ".docx" ->
  docx_paragraphs w file_path = Ok paragraphs ->
  Forall (fun q => ~ In 10%N q) paragraphs ->
  exists text,
    (forall s, fst (extract_text w file_path s) = Ok text)
    /\ chunk_text text (lit "paragraph")
       = Ok (List.filter (fun q => negb (blank q)) paragraphs).
Proof.
  intros Hext Hdoc Hlines.
  exists (List.concat (List.map (fun q => q ++ [10%N]) paragraphs)).
  split.
  - intros s. unfold extract_text. rewrite Hext.
    change (str_eqb (lit ".docx") (lit ".pdf")) with false.
    change (str_eqb (lit ".docx") (lit ".docx")) with true.
    cbv iota. unfold extract_text_from_docx. rewrite !bind_run.
    unfold log, lift, ret. rewrite Hdoc. simpl.
    now rewrite fold_left_lines.
  - change (chunk_text ?t (lit "paragraph")) with (Ok (split_text_paragraph t)).
    f_equal. unfold split_text_paragraph.
    rewrite split_char_lines by assumption.
    rewrite filter_app. simpl. rewrite app_nil_r.
    apply filter_ext. intros q. apply truthy_strip.
Qed.

Lemma docx_paragraphs_come_back_witness :
  file_extension memo_world (lit "memo.docx") = lit ".docx"
  /\ docx_paragraphs memo_world (lit "memo.docx")
     = Ok [lit "Dear all,"; lit ""; lit "See you on Monday."]
  /\ Forall (fun q => ~ In 10%N q)
            [lit "Dear all,"; lit ""; lit "See you on Monday."]
  /\ exists text,
      (forall s, fst (extract_text memo_world (lit "memo.docx") s) = Ok text)
      /\ chunk_text text (lit "paragraph")
         = Ok (List.filter (fun q => negb (blank q))
                 [lit "Dear all,"; lit ""; lit "See you on Monday."]).
Proof.
  assert (Hl : Forall (fun q => ~ In 10%N q)
                      [lit "Dear all,"; lit ""; lit "See you on Monday."]).
  { repeat constructor; intros H; vm_compute in H;
      repeat (destruct H as [H|H]; [discriminate H|]); exact H. }
  split; [reflexivity|]. split; [reflexivity|]. split; [exact Hl|].
  apply (docx_paragraphs_come_back memo_world (lit "memo.docx")
           [lit "Dear all,"; lit ""; lit "See you on Monday."]);
    [reflexivity | reflexivity | exact Hl].
Defined.

(** ** Configuration and entry point *)

Lemma check_vars_ok (environ : str -> option str) (vars : list str) :
  check_vars environ vars = ConfigOk
  <-> forall var, In var vars -> getenv_truthy (environ var) = true.
Proof.
  induction vars as [|v vars IH]; simpl.
  - split; [intros _ var []|reflexivity].
  - destruct (getenv_truthy (environ v)) eqn:E; simpl.
    + rewrite IH. split.
      * intros H var [<-|Hin]; auto.
      * intros H var Hin. apply H. now right.
    + split; [discriminate|]. intros H.
      rewrite (H v (or_introl eq_refl)) in E. discriminate.
Qed.

Lemma check_vars_missing (environ : str -> option str) (vars : list str)
      (var : str) :
  check_vars environ vars = ConfigMissing var ->
  exists before after,
    vars = before ++ var :: after
    /\ getenv_truthy (environ var) = false
    /\ forall v, In v before -> getenv_truthy (environ v) = true.
Proof.
  induction vars as [|v vars IH]; simpl; [discriminate|].
  destruct (getenv_truthy (environ v)) eqn:E; simpl.
  - intros H. destruct (IH H) as (before & after & -> & Hm & Hb).
    exists (v :: before), after. split; [reflexivity|]. split; [exact Hm|].
    intros x [<-|Hx]; auto.
  - intros H. inversion H; subst. exists [], vars.
    split; [reflexivity|]. split; [exact E|]. intros x [].
Qed.

Lemma getenv_truthy_false (v : option str) :
  getenv_truthy v = false <-> v = None \/ v = Some [].
Proof.
  destruct v as [[|c s]|]; simpl; split; auto; try discriminate.
  intros [H|H]; discriminate.
Qed.

(** X15: [setup_env] returns exactly when each of the six required
    variables is set to a non-empty value; otherwise the error it raises
    names the first variable of the list, in the order of the list, that
    is unset or empty. *)
Theorem setup_env_names_first_missing (environ : str -> option str) :
  (setup_env environ = ConfigOk
   <-> forall var, In var required_vars ->
                   exists c s, environ var = Some (c :: s))
  /\ forall var,
      setup_env environ = ConfigMissing var ->
      (environ var = None \/ environ var = Some [])
      /\ exists before after,
          required_vars = before ++ var :: after
          /\ forall v, In v before -> exists c s, environ v = Some (c :: s).
Proof.
  assert (Hset : forall v, getenv_truthy (environ v) = true
                           <-> exists c s, environ v = Some (c :: s)).
  { intros v. destruct (environ v) as [[|c s]|]; simpl; split;
      try discriminate; eauto.
    - intros (c & s & H). discriminate.
    - intros (c & s & H). discriminate. }
  unfold setup_env. split.
  - rewrite check_vars_ok. split; intros H var Hin; apply Hset; auto.
  - intros var H. apply check_vars_missing in H.
    destruct H as (before & after & E & Hm & Hb).
    split; [now apply getenv_truthy_false|].
    exists before, after. split; [exact E|].
    intros v Hv. apply Hset. auto.
Qed.

(** X16: when one of the required variables is unset or empty, [main]
    stops before any pipeline work: it exits with status 1, its one line
    on the error stream names a required variable, and no call has left the
    process (no file is looked up, no connection opened). *)
Theorem main_stops_on_missing_variable
        (w : world) (environ : str -> option str) (file_path strategy : str)
        (db : list row) (var : str) :
  In var required_vars ->
  environ var = None \/ environ var = Some [] ->
  exists missing,
    In missing required_vars
    /\ (environ missing = None \/ environ missing = Some [])
    /\ main w environ file_path strategy db
       = (SystemExit 1, [ConfigurationError missing], init_state db)
    /\ trace (snd (main w environ file_path strategy db)) = [].
Proof.
  intros Hin Hunset. unfold main.
  destruct (setup_env environ) as [|missing] eqn:E.
  - exfalso. unfold setup_env in E. rewrite check_vars_ok in E.
    apply getenv_truthy_false in Hunset. rewrite (E var Hin) in Hunset.
    discriminate.
  - exists missing. unfold setup_env in E. apply check_vars_missing in E.
    destruct E as (before & after & E & Hm & _).
    split; [rewrite E; apply in_or_app; right; now left|].
    split; [now apply getenv_truthy_false|]. split; reflexivity.
Qed.

Lemma main_stops_on_missing_variable_witness :
  In (lit "POSTGRES_DB") required_vars
  /\ (partial_environ (lit "POSTGRES_DB") = None
      \/ partial_environ (lit "POSTGRES_DB") = Some [])
  /\ exists missing,
      In missing required_vars
      /\ (partial_environ missing = None \/ partial_environ missing = Some [])
      /\ main quiet_world partial_environ (lit "a.pdf") (lit "fixed") []
         = (SystemExit 1, [ConfigurationError missing], init_state [])
      /\ trace (snd (main quiet_world partial_environ (lit "a.pdf")
                          (lit "fixed") [])) = [].
Proof.
  assert (Hin : In (lit "POSTGRES_DB") required_vars)
    by (right; right; left; reflexivity).
  assert (Hun : partial_environ (lit "POSTGRES_DB") = None
                \/ partial_environ (lit "POSTGRES_DB") = Some [])
    by (left; reflexivity).
  split; [exact Hin|]. split; [exact Hun|].
  exact (main_stops_on_missing_variable
           quiet_world partial_environ (lit "a.pdf") (lit "fixed") []
           (lit "POSTGRES_DB") Hin Hun).
Defined.

(** What a run of [process_document] leaves behind: no open connection,
    and a table that has changed only if the commit succeeded. *)
Lemma process_document_table (w : world) (file_path strategy : str)
      (db : list row) (r : result value) (s : state) :
  process_document w file_path strategy (init_state db) = (r, s) ->
  conn s <> Open
  /\ ((~ In (EvCommit None) (trace s) /\ visible s = db
       /\ exists e, r = Raise e)
      \/ (In (EvCommit None) (trace s)
          /\ exists rows,
              visible s = db ++ rows
              /\ ((print_error w (MsgStored (len rows)) = None
                   /\ r = Ok VNone /\ conn s = Closed)
                  \/ (exists e0 e,
                         print_error w (MsgStored (len rows)) = Some e0
                         /\ r = Raise e)))).
Proof.
  intros E. apply process_document_run in E.
  destruct E as [((e & ->) & Hv & Hp & Hc & Hpre)
                |(text & chunks & pre & evs & post & Hx & Hch & Hpre & Ht & Hle
                  & _ & Hc & Hp & Hcases)].
  - rewrite Hc. split; [discriminate|]. left.
    split; [|eauto]. intros Hin. rewrite Forall_forall in Hpre.
    destruct (Hpre _ Hin).
  - split; [rewrite Hc; discriminate|].
    assert (Hnot : ~ In (EvCommit None) post ->
                   ~ In (EvCommit None) (trace s)).
    { intros Hpo Hin. rewrite Ht in Hin. rewrite Forall_forall in Hpre, Hle.
      apply in_app_or in Hin. destruct Hin as [Hin|Hin];
        [destruct (Hpre _ Hin)|].
      apply in_app_or in Hin. destruct Hin as [[H|[]]|Hin]; [discriminate|].
      apply in_app_or in Hin. destruct Hin as [Hin|Hin];
        [destruct (Hle _ Hin)|auto]. }
    assert (Hyes : In (EvCommit None) post -> In (EvCommit None) (trace s)).
    { intros Hin. rewrite Ht. apply in_or_app. right. simpl. right.
      apply in_or_app. now right. }
    assert (Hlen : forall rows,
      List.map row_chunk_text rows
      = safe_chunks_of (List.map clean_chunk chunks) ->
      len rows = len (safe_chunks_of (List.map clean_chunk chunks))).
    { intros rows Hm. unfold len. now rewrite <- Hm, length_map. }
    destruct Hcases as [(rows & -> & _ & _ & Hpo & Hvis & Hm & _ & Hpr)
                       |[(e & _ & _ & Hpo & Hvis & ->)
                        |[(e & evs0 & ev & _ & _ & _ & Hpo & Hvis & ->)
                         |(e & rows & _ & _ & Hpr & Hpo & Hvis & Hm
                           & _ & ->)]]].
    + right. split; [apply Hyes; rewrite Hpo; simpl; auto|].
      exists rows. rewrite (Hlen rows Hm). split; [exact Hvis|]. left. auto.
    + left. split; [|eauto]. apply Hnot. rewrite Hpo.
      intros [H|H]; [discriminate|]. exact (abort_tail_no_commit _ _ _ H).
    + left. split; [|eauto]. apply Hnot. rewrite Hpo.
      apply abort_tail_no_commit.
    + right. split; [apply Hyes; rewrite Hpo; simpl; auto|].
      exists rows. rewrite (Hlen rows Hm). split; [exact Hvis|]. right. eauto.
Qed.

(** X17: how [main] ends tells what happened to the table.  It returns
    only if the configuration is complete and [process_document] returned,
    and then the commit has succeeded and the table has gained the rows of
    the document.  It exits with status 1, after one line on the error
    stream, on a configuration error or on an exception of the pipeline
    that derives from [Exception], and an exception that does not derive
    from it propagates.  In these two cases the table is unchanged unless
    the commit had succeeded: then the rows of the document are in the
    table, and what failed is the printing of the line that reports their
    count.  No connection is left open in any case. *)
Theorem main_exit_status
        (w : world) (environ : str -> option str) (file_path strategy : str)
        (db : list row) :
  match main w environ file_path strategy db with
  | (ExitNormally, err, s) =>
      err = [] /\ conn s = Closed
      /\ setup_env environ = ConfigOk
      /\ outcome w file_path strategy db = Ok VNone
      /\ In (EvCommit None) (trace s)
      /\ exists rows, visible s = db ++ rows
  | (SystemExit code, err, s) =>
      code = 1 /\ conn s <> Open
      /\ ((exists var, err = [ConfigurationError var]
                       /\ setup_env environ = ConfigMissing var
                       /\ trace s = [])
          \/ (exists e, err = [PipelineError e] /\ is_Exception e = true
                        /\ setup_env environ = ConfigOk
                        /\ outcome w file_path strategy db = Raise e))
      /\ ((~ In (EvCommit None) (trace s) /\ visible s = db)
          \/ (In (EvCommit None) (trace s)
              /\ exists rows e0,
                  visible s = db ++ rows
                  /\ print_error w (MsgStored (len rows)) = Some e0))
  | (Uncaught e, err, s) =>
      err = [] /\ conn s <> Open
      /\ is_Exception e = false
      /\ setup_env environ = ConfigOk
      /\ outcome w file_path strategy db = Raise e
      /\ ((~ In (EvCommit None) (trace s) /\ visible s = db)
          \/ (In (EvCommit None) (trace s)
              /\ exists rows e0,
                  visible s = db ++ rows
                  /\ print_error w (MsgStored (len rows)) = Some e0))
  end.
Proof.
  unfold main, outcome.
  destruct (setup_env environ) as [|var] eqn:Hcfg.
  - destruct (process_document w file_path strategy (init_state db))
      as [r s] eqn:E.
    simpl fst. apply process_document_table in E.
    destruct E as (Hc & [(Hno & Hv & e & ->)
                        |(Hyes & rows & Hv
                          & [(Hpr & -> & Hcl)|(e0 & e & Hpr & ->)])]).
    + destruct (is_Exception e) eqn:Ee.
      * split; [reflexivity|]. split; [exact Hc|].
        split; [right; eauto|]. left. auto.
      * split; [reflexivity|]. split; [exact Hc|].
        split; [exact Ee|]. split; [reflexivity|].
        split; [reflexivity|]. left. auto.
    + split; [reflexivity|]. split; [exact Hcl|].
      split; [reflexivity|]. split; [reflexivity|].
      split; [exact Hyes|]. eauto.
    + destruct (is_Exception e) eqn:Ee.
      * split; [reflexivity|]. split; [exact Hc|].
        split; [right; eauto|]. right. eauto.
      * split; [reflexivity|]. split; [exact Hc|].
        split; [exact Ee|]. split; [reflexivity|].
        split; [reflexivity|]. right. eauto.
  - simpl. split; [reflexivity|]. split; [discriminate|].
    split; [left; eauto|]. left. split; [|reflexivity]. intros [].
Qed.

Example main_runs :
  fst (main quiet_world full_environ (lit "a.pdf") (lit "fixed") [])
  = (ExitNormally, [])
  /\ fst (main flaky_world full_environ (lit "a.pdf") (lit "sentence") [])
     = (SystemExit 1, [PipelineError (External true 503)])
  /\ fst (main interrupted_world full_environ (lit "a.pdf") (lit "sentence") [])
     = (Uncaught (External false 2), [])
  /\ fst (main quiet_world partial_environ (lit "a.pdf") (lit "fixed") [])
     = (SystemExit 1, [ConfigurationError (lit "POSTGRES_DB")]).
Proof. vm_compute. auto. Qed.

(** On an ASCII standard output the run commits its row, fails to print
    the final report and exits with status 1. *)
Example main_ascii_stdout :
  fst (main ascii_stdout_world full_environ (lit "a.pdf") (lit "fixed") [])
  = (SystemExit 1, [PipelineError UnicodeEncodeError])
  /\ visible (snd (main ascii_stdout_world full_environ (lit "a.pdf")
                        (lit "fixed") []))
     = [mkRow (lit "Hello world.") [] (lit "a.pdf") (lit "fixed")]
  /\ In (EvCommit None)
        (trace (snd (main ascii_stdout_world full_environ (lit "a.pdf")
                          (lit "fixed") []))).
Proof.
  vm_compute. split; [reflexivity|]. split; [reflexivity|].
  repeat first [left; reflexivity | right].
Qed.

(** ** From the extracted text to the table *)

Lemma visible_chars_concat_clean (chunks : list str) :
  visible_chars (List.concat (List.map clean_chunk chunks))
  = visible_chars (List.concat chunks).
Proof.
  induction chunks as [|c chunks IH]; trivial. simpl.
  now rewrite !visible_chars_app, clean_chunk_visible, IH.
Qed.

(** X18: with the sentence or the paragraph strategy, a run of
    [process_document] that returns has stored every character of the
    extracted text that is not whitespace: the stored texts, read in the
    order of insertion, hold these characters, all of them and in the order
    of the document. *)
Theorem stored_texts_hold_the_visible_text
        (w : world) (file_path strategy : str) (db : list row)
        (text : str) (v : value) :
  strategy = lit "sentence" \/ strategy = lit "paragraph" ->
  (forall s, fst (extract_text w file_path s) = Ok text) ->
  outcome w file_path strategy db = Ok v ->
  exists rows,
    visible (final w file_path strategy db) = db ++ rows
    /\ visible_chars (List.concat (List.map row_chunk_text rows))
       = visible_chars text.
Proof.
  intros Hstrat Htext. unfold outcome, final.
  destruct (process_document w file_path strategy (init_state db)) as [r s] eqn:E.
  simpl fst. simpl snd. intros ->. apply process_document_run in E.
  destruct E as [((e & He) & _) | (text' & chunks & pre & evs & post & Hx
                                   & Hch & _ & _ & _ & _ & _ & _ & Hcases)];
    [discriminate|].
  assert (text' = text).
  { specialize (Hx (init_state db)). specialize (Htext (init_state db)).
    congruence. }
  subst text'.
  destruct Hcases as [(rows & _ & _ & _ & _ & Hvis & Hm & _)
                     |[(e & _ & _ & _ & _ & He)
                      |[(e & evs0 & ev & _ & _ & _ & _ & _ & He)
                       |(e & rows' & _ & _ & _ & _ & _ & _ & _ & He)]]];
    try discriminate.
  exists rows. split; [exact Hvis|].
  rewrite Hm, concat_safe_chunks, visible_chars_concat_clean.
  destruct Hstrat as [-> | ->].
  - change (chunk_text text (lit "sentence"))
      with (Ok (split_text_sentence text)) in Hch.
    inversion Hch; subst. apply split_text_sentence_visible.
  - change (chunk_text text (lit "paragraph"))
      with (Ok (split_text_paragraph text)) in Hch.
    inversion Hch; subst. apply split_text_paragraph_visible.
Qed.

Lemma stored_texts_hold_the_visible_text_witness :
  (lit "sentence" = lit "sentence" \/ lit "sentence" = lit "paragraph")
  /\ outcome quiet_world (lit "a.pdf") (lit "sentence") [] = Ok VNone
  /\ exists rows,
      visible (final quiet_world (lit "a.pdf") (lit "sentence") []) = [] ++ rows
      /\ visible_chars (List.concat (List.map row_chunk_text rows))
         = visible_chars (lit "Hello world." ++ [10%N]).
Proof.
  split; [left; reflexivity|]. split; [reflexivity|].
  apply (stored_texts_hold_the_visible_text
           quiet_world (lit "a.pdf") (lit "sentence") []
           (lit "Hello world." ++ [10%N]) VNone);
    [left; reflexivity | intros s; reflexivity | reflexivity].
Defined.

(** X19: with the default configuration the fixed strategy cuts a window
    every 450 characters: it returns at most [ceil(len(text) / 450)]
    chunks, and none for the empty text. *)
Theorem fixed_strategy_chunk_count (text : str) :
  len (split_text_fixed_default text) <= (len text + 449) / 450
  /\ split_text_fixed_default [] = [].
Proof.
  split; [|reflexivity].
  rewrite split_text_fixed_default_spec.
  pose proof (len_nonneg text) as Hl.
  assert (Hn : Z.of_nat (range_len 0 (len text) 450) = (len text + 449) / 450).
  { unfold range_len. destruct (0 <? len text) eqn:E.
    - apply Z.ltb_lt in E.
      replace (len text - 0 + 450 - 1) with (len text + 449) by lia.
      rewrite Z2Nat.id; [reflexivity|apply Z.div_pos; lia].
    - apply Z.ltb_ge in E. rewrite Z.div_small; lia. }
  rewrite <- Hn. unfold len at 1.
  pose proof (filter_length_le (fun c => truthy (strip c))
                (List.map (fun i => slice text i (i + 500))
                          (range_pos 0 (len text) 450))) as Hf.
  unfold range_pos in Hf at 2. rewrite !length_map, length_seq in Hf. lia.
Qed.

(** ** PDF pages *)

Lemma fold_left_pages (pages : list str) (acc : str) :
  fold_left (fun text page_text =>
               if truthy page_text then text ++ page_text ++ [10%N] else text)
            pages acc
  = acc ++ List.concat (List.map (fun q => q ++ [10%N])
                                 (List.filter truthy pages)).
Proof.
  revert acc. induction pages as [|q pages IH]; intros acc; simpl.
  - now rewrite app_nil_r.
  - rewrite IH. destruct (truthy q); simpl; [|reflexivity].
    now rewrite <- !app_assoc.
Qed.

Lemma visible_chars_pages (pages : list str) :
  visible_chars (List.concat (List.map (fun q => q ++ [10%N])
                                       (List.filter truthy pages)))
  = visible_chars (List.concat pages).
Proof.
  induction pages as [|q pages IH]; trivial.
  cbn [List.filter List.concat]. rewrite visible_chars_app, <- IH.
  destruct (truthy q) eqn:T.
  - cbn [List.map List.concat]. rewrite !visible_chars_app.
    unfold visible_chars at 2. simpl. now rewrite app_nil_r.
  - destruct q; [reflexivity|discriminate].
Qed.

(** X20: the text extracted from a PDF is made of its pages in order, each
    page that has text followed by a newline, the pages without text
    skipped: it holds the visible characters of the pages, all of them and
    in order, and it is empty exactly when no page has text. *)
Theorem pdf_text_is_made_of_its_pages
        (w : world) (file_path : str) (pages : list str) :
  file_extension w file_path = lit ".pdf" ->
  pdf_pages w file_path = Ok pages ->
  exists text,
    (forall s, fst (extract_text w file_path s) = Ok text)
    /\ text = List.concat (List.map (fun q => q ++ [10%N])
                                    (List.filter truthy pages))
    /\ visible_chars text = visible_chars (List.concat pages)
    /\ (text = [] <-> Forall (fun q => q = []) pages).
Proof.
  intros Hext Hpages.
  exists (List.concat (List.map (fun q => q ++ [10%N])
                                (List.filter truthy pages))).
  split; [|split; [reflexivity|split; [apply visible_chars_pages|]]].
  - intros s. unfold extract_text. rewrite Hext.
    change (str_eqb (lit ".pdf") (lit ".pdf")) with true.
    cbv iota. unfold extract_text_from_pdf. rewrite !bind_run.
    unfold log, lift, ret. rewrite Hpages. simpl.
    now rewrite fold_left_pages.
  - clear. induction pages as [|q pages IH]; simpl.
    + split; [constructor|reflexivity].
    + destruct q as [|c q]; simpl.
      * rewrite IH. split; [now constructor|].
        intros H. now inversion H.
      * split; [discriminate|]. intros H. inversion H. discriminate.
Qed.

Lemma pdf_text_is_made_of_its_pages_witness :
  file_extension quiet_world (lit "Report.PDF") = lit ".pdf"
  /\ pdf_pages quiet_world (lit "Report.PDF") = Ok [lit "Hello world."]
  /\ exists text,
      (forall s, fst (extract_text quiet_world (lit "Report.PDF") s) = Ok text)
      /\ text = List.concat (List.map (fun q => q ++ [10%N])
                                      (List.filter truthy [lit "Hello world."]))
      /\ visible_chars text = visible_chars (List.concat [lit "Hello world."])
      /\ (text = [] <-> Forall (fun q => q = []) [lit "Hello world."]).
Proof.
  split; [reflexivity|]. split; [reflexivity|].
  apply (pdf_text_is_made_of_its_pages
           quiet_world (lit "Report.PDF") [lit "Hello world."]);
    reflexivity.
Defined.
